(** * WerewolfPolyphonicAudio: the procedural ambient audio engine

    A shallow embedding of [src/frontend/js/audio.js].

    - JavaScript numbers are modelled as exact rationals ([Q]); the one
      irrational operation of the source, [Math.pow(2, semitone / 12)], is
      kept symbolic in the type [Freq].
    - The Web Audio device is a recording device: every call made on the
      audio context or on one of its nodes is appended to [calls].  The
      argument checks of the device itself (a buffer of less than one
      sample, a negative time, a value that is not finite) are not
      modelled: a call on a constructed device is recorded and returns.
      The only failures are the ones JavaScript itself raises (constructing
      an unavailable device, connecting to [null]).
    - [setInterval] / [clearInterval] act on the platform's table of live
      interval timers.  The environment fires a live timer with [Tick] and
      advances the device clock with [Elapse], in any order: every schedule
      of the platform is among the runs considered.
    - [Math.random] reads an oracle [rand : N -> Q], one value per call.
    - [console.log] / [console.warn] output is not modelled. *)

From Stdlib Require Import QArith Qround ZArith Lia.
From stdpp Require Import gmap list.

#[local] Set Warnings "-clear-no-such-hyp".

Local Open Scope Z_scope.

(** ** Numbers *)

(** [x > y] on JavaScript numbers. *)
Definition Qgtb (x y : Q) : bool := negb (Qle_bool x y).

(** A frequency handed to the device.  [Tempered q s] stands for
    [q * Math.pow(2, s / 12)]; [NaNFreq] for the result of arithmetic on
    [undefined] (an out-of-range scale index). *)
Inductive Freq :=
| Hz (q : Q)
| Tempered (q : Q) (semitone : Z)
| NaNFreq.

Inductive Waveform := sine | triangle | square | sawtooth.

Inductive FilterType := lowpass.

(** ** The output device *)

(** A node of the audio graph: the context's [destination] or a node created
    by one of the [create*] calls, named by its creation index. *)
Inductive Node :=
| Destination
| NodeRef (id : nat).

#[global] Instance Node_eq_dec : EqDecision Node.
Proof. solve_decision. Defined.

Inductive DeviceCall :=
| CreateGain (n : nat)
| CreateOscillator (n : nat)
| CreateBuffer (b : nat) (channels : Z) (length : Q) (rate : Q)
| GetChannelData (b : nat) (channel : Z)
    (* [data[i] = Math.random() * 2 - 1] for [i < count], the samples being
       the oracle values [first], [first + 1], ... *)
| WriteSamples (b : nat) (first count : N)
| CreateBufferSource (n : nat)
| CreateBiquadFilter (n : nat)
| SetGainValue (n : nat) (v : Q)
| SetOscType (n : nat) (ty : Waveform)
| SetFilterType (n : nat) (ty : FilterType)
| SetFrequencyValue (n : nat) (f : Freq)
| SetBuffer (n : nat) (b : nat)
| GainSetValueAtTime (n : nat) (v : Q) (t : Q)
| GainExponentialRamp (n : nat) (v : Q) (t : Q)
| GainLinearRamp (n : nat) (v : Q) (t : Q)
| FreqSetValueAtTime (n : nat) (f : Q) (t : Q)
| FreqLinearRamp (n : nat) (f : Q) (t : Q)
| Connect (src : nat) (dst : Node)
    (* [start()] without argument: playback begins at the context's current
       time, which is recorded as [onset] *)
| Start (n : nat) (onset : Q)
| Stop (n : nat) (t : Q).

(** What [new AudioContext()] yields when the device can be constructed. *)
Record AudioContext := { sampleRate : Q }.

(** ** The engine object *)

Record Config := {
  masterVolume : Q;
  musicVolume : Q;
  sfxVolume : Q
}.

Record Engine := {
  audioContext : option AudioContext;
  masterGain : option Node;
  musicGain : option Node;
  sfxGain : option Node;
  isEnabled : bool;
  isMusicPlaying : bool;
  musicInterval : option Z;
  ambientIntervals : list Z;
  config : Config
}.

Definition minor : list Z := [0; 2; 3; 5; 7; 8; 10].
Definition phrygian : list Z := [0; 1; 3; 5; 7; 8; 10].
Definition locrian : list Z := [0; 1; 3; 5; 6; 8; 10].
Definition harmonicMinor : list Z := [0; 2; 3; 5; 7; 8; 11].

Definition baseFreq : Q := 73.42.

(** ** The platform *)

(** The functions handed to [setInterval].  [playMelodyNote] closes over the
    variable [lastNoteIndex] of its [startMelody] invocation; [cell] names
    that variable in [melodyCells]. *)
Inductive Callback :=
| playDroneCb
| playMelodyNoteCb (cell : nat)
| windCb
| creakCb.

Record Timer := { callback : Callback; delay : Q }.

Record World := {
  this : Engine;
  timers : gmap Z Timer;       (* live interval timers, by handle *)
  nextTimer : Z;               (* the handle the next [setInterval] returns *)
  melodyCells : list Z;        (* the [lastNoteIndex] variables *)
  calls : list DeviceCall;     (* device calls so far, oldest first *)
  nextNode : nat;
  currentTime : Q;             (* [audioContext.currentTime] *)
  rand : N -> Q;               (* the values [Math.random()] returns *)
  drawn : N                    (* how many of them were consumed *)
}.

Definition set_audioContext v (e : Engine) : Engine :=
  {| audioContext := v; masterGain := masterGain e; musicGain := musicGain e;
     sfxGain := sfxGain e; isEnabled := isEnabled e;
     isMusicPlaying := isMusicPlaying e; musicInterval := musicInterval e;
     ambientIntervals := ambientIntervals e; config := config e |}.

Definition set_masterGain v (e : Engine) : Engine :=
  {| audioContext := audioContext e; masterGain := v; musicGain := musicGain e;
     sfxGain := sfxGain e; isEnabled := isEnabled e;
     isMusicPlaying := isMusicPlaying e; musicInterval := musicInterval e;
     ambientIntervals := ambientIntervals e; config := config e |}.

Definition set_musicGain v (e : Engine) : Engine :=
  {| audioContext := audioContext e; masterGain := masterGain e; musicGain := v;
     sfxGain := sfxGain e; isEnabled := isEnabled e;
     isMusicPlaying := isMusicPlaying e; musicInterval := musicInterval e;
     ambientIntervals := ambientIntervals e; config := config e |}.

Definition set_sfxGain v (e : Engine) : Engine :=
  {| audioContext := audioContext e; masterGain := masterGain e;
     musicGain := musicGain e; sfxGain := v; isEnabled := isEnabled e;
     isMusicPlaying := isMusicPlaying e; musicInterval := musicInterval e;
     ambientIntervals := ambientIntervals e; config := config e |}.

Definition set_isMusicPlaying v (e : Engine) : Engine :=
  {| audioContext := audioContext e; masterGain := masterGain e;
     musicGain := musicGain e; sfxGain := sfxGain e; isEnabled := isEnabled e;
     isMusicPlaying := v; musicInterval := musicInterval e;
     ambientIntervals := ambientIntervals e; config := config e |}.

Definition set_musicInterval v (e : Engine) : Engine :=
  {| audioContext := audioContext e; masterGain := masterGain e;
     musicGain := musicGain e; sfxGain := sfxGain e; isEnabled := isEnabled e;
     isMusicPlaying := isMusicPlaying e; musicInterval := v;
     ambientIntervals := ambientIntervals e; config := config e |}.

Definition set_ambientIntervals v (e : Engine) : Engine :=
  {| audioContext := audioContext e; masterGain := masterGain e;
     musicGain := musicGain e; sfxGain := sfxGain e; isEnabled := isEnabled e;
     isMusicPlaying := isMusicPlaying e; musicInterval := musicInterval e;
     ambientIntervals := v; config := config e |}.

Definition set_config v (e : Engine) : Engine :=
  {| audioContext := audioContext e; masterGain := masterGain e;
     musicGain := musicGain e; sfxGain := sfxGain e; isEnabled := isEnabled e;
     isMusicPlaying := isMusicPlaying e; musicInterval := musicInterval e;
     ambientIntervals := ambientIntervals e; config := v |}.

Definition set_this (f : Engine -> Engine) (w : World) : World :=
  {| this := f (this w); timers := timers w; nextTimer := nextTimer w;
     melodyCells := melodyCells w; calls := calls w; nextNode := nextNode w;
     currentTime := currentTime w; rand := rand w; drawn := drawn w |}.

Definition set_timers (f : gmap Z Timer -> gmap Z Timer) (w : World) : World :=
  {| this := this w; timers := f (timers w); nextTimer := nextTimer w;
     melodyCells := melodyCells w; calls := calls w; nextNode := nextNode w;
     currentTime := currentTime w; rand := rand w; drawn := drawn w |}.

Definition set_nextTimer (v : Z) (w : World) : World :=
  {| this := this w; timers := timers w; nextTimer := v;
     melodyCells := melodyCells w; calls := calls w; nextNode := nextNode w;
     currentTime := currentTime w; rand := rand w; drawn := drawn w |}.

Definition set_melodyCells (v : list Z) (w : World) : World :=
  {| this := this w; timers := timers w; nextTimer := nextTimer w;
     melodyCells := v; calls := calls w; nextNode := nextNode w;
     currentTime := currentTime w; rand := rand w; drawn := drawn w |}.

Definition set_calls (v : list DeviceCall) (w : World) : World :=
  {| this := this w; timers := timers w; nextTimer := nextTimer w;
     melodyCells := melodyCells w; calls := v; nextNode := nextNode w;
     currentTime := currentTime w; rand := rand w; drawn := drawn w |}.

Definition set_nextNode (v : nat) (w : World) : World :=
  {| this := this w; timers := timers w; nextTimer := nextTimer w;
     melodyCells := melodyCells w; calls := calls w; nextNode := v;
     currentTime := currentTime w; rand := rand w; drawn := drawn w |}.

Definition set_currentTime (v : Q) (w : World) : World :=
  {| this := this w; timers := timers w; nextTimer := nextTimer w;
     melodyCells := melodyCells w; calls := calls w; nextNode := nextNode w;
     currentTime := v; rand := rand w; drawn := drawn w |}.

Definition set_drawn (v : N) (w : World) : World :=
  {| this := this w; timers := timers w; nextTimer := nextTimer w;
     melodyCells := melodyCells w; calls := calls w; nextNode := nextNode w;
     currentTime := currentTime w; rand := rand w; drawn := v |}.

(** ** Statements: state and exceptions

    A JavaScript statement either completes or throws; in both cases the
    mutations it made so far persist. *)

Inductive Result (A : Type) :=
| Ok (a : A) (w : World)
| Throw (w : World).
Arguments Ok {A} a w.
Arguments Throw {A} w.

Definition M (A : Type) : Type := World -> Result A.

Definition ret {A} (a : A) : M A := fun w => Ok a w.

Definition bind {A B} (m : M A) (k : A -> M B) : M B :=
  fun w => match m w with
           | Ok a w' => k a w'
           | Throw w' => Throw w'
           end.

Definition throw {A} : M A := fun w => Throw w.

(** [try { body } catch (e) { handler }] *)
Definition try_catch (body handler : M unit) : M unit :=
  fun w => match body w with
           | Ok a w' => Ok a w'
           | Throw w' => handler w'
           end.

Definition get {A} (f : World -> A) : M A := fun w => Ok (f w) w.
Definition modify (f : World -> World) : M unit := fun w => Ok tt (f w).

Declare Scope js_scope.
Delimit Scope js_scope with js.
Notation "x ← y ; z" := (bind y (fun x => z))
  (at level 20, y at level 100, z at level 200, only parsing) : js_scope.
Notation "x ;; z" := (bind x (fun _ => z))
  (at level 100, z at level 200, only parsing, right associativity) : js_scope.
Local Open Scope js_scope.

(** The world a statement leaves behind, and whether it threw. *)
Definition after {A} (r : Result A) : World :=
  match r with Ok _ w => w | Throw w => w end.

Definition threw {A} (r : Result A) : bool :=
  match r with Ok _ _ => false | Throw _ => true end.

(** ** Platform primitives *)

Definition field {A} (f : Engine -> A) : M A := get (fun w => f (this w)).
Definition assign (f : Engine -> Engine) : M unit := modify (set_this f).

(** [Math.random()] *)
Definition random : M Q :=
  fun w => Ok (rand w (drawn w)) (set_drawn (N.succ (drawn w)) w).

(** [setInterval(cb, delay)] *)
Definition setInterval (cb : Callback) (ms : Q) : M Z :=
  fun w => Ok (nextTimer w)
              (set_nextTimer (nextTimer w + 1)
                 (set_timers (insert (nextTimer w)
                                {| callback := cb; delay := ms |}) w)).

(** [clearInterval(id)] *)
Definition clearInterval (id : Z) : M unit := modify (set_timers (delete id)).

(** ** Device primitives *)

Definition emit (c : DeviceCall) : M unit :=
  modify (fun w => set_calls (calls w ++ [c]) w).

Definition fresh : M nat :=
  fun w => Ok (nextNode w) (set_nextNode (S (nextNode w)) w).

(** [new (window.AudioContext || window.webkitAudioContext)()] *)
Definition newAudioContext (device : option AudioContext) : M AudioContext :=
  match device with
  | None => throw
  | Some ctx => modify (set_currentTime 0%Q) ;; ret ctx
  end.

Definition createGain : M nat := n ← fresh; emit (CreateGain n) ;; ret n.
Definition createOscillator : M nat :=
  n ← fresh; emit (CreateOscillator n) ;; ret n.
Definition createBufferSource : M nat :=
  n ← fresh; emit (CreateBufferSource n) ;; ret n.
Definition createBiquadFilter : M nat :=
  n ← fresh; emit (CreateBiquadFilter n) ;; ret n.
Definition createBuffer (channels : Z) (len rate : Q) : M nat :=
  b ← fresh; emit (CreateBuffer b channels len rate) ;; ret b.

(** [src.connect(dst)]; connecting to [null] is a [TypeError]. *)
Definition connect (src : nat) (dst : option Node) : M unit :=
  match dst with
  | Some d => emit (Connect src d)
  | None => throw
  end.

(** [!x] on a nullable reference *)
Definition absent {A} (x : option A) : bool :=
  match x with Some _ => false | None => true end.

(** [a || b] on nullable node references *)
Definition orElse (a b : option Node) : option Node :=
  match a with Some _ => a | None => b end.

(** ** Synthesis primitives *)

(** [playNote(freq, duration, type, volume, destination)]; the source's
    callers always pass all five arguments. *)
Definition playNote (freq : Freq) (duration : Q) (type : Waveform)
    (volume : Q) (destination : option Node) : M unit :=
  ctx ← field audioContext;
  match ctx with
  | None => ret tt
  | Some _ =>
      osc ← createOscillator;
      gain ← createGain;
      emit (SetOscType osc type) ;;
      emit (SetFrequencyValue osc freq) ;;
      t0 ← get currentTime;
      emit (GainSetValueAtTime gain volume t0) ;;
      t1 ← get currentTime;
      emit (GainExponentialRamp gain 0.001 (t1 + duration)) ;;
      emit (Connect osc (NodeRef gain)) ;;
      master ← field masterGain;
      connect gain (orElse destination master) ;;
      t2 ← get currentTime;
      emit (Start osc t2) ;;
      t3 ← get currentTime;
      emit (Stop osc (t3 + duration))
  end.

(** [playFilteredNoise(duration, cutoff, volume, destination)].  The [for]
    loop runs for [i = 0, 1, ...] while [i < bufferSize], drawing one random
    number per iteration: the ceiling of [bufferSize] numbers in all, which
    [WriteSamples] records in one entry. *)
Definition playFilteredNoise (duration cutoff volume : Q)
    (destination : option Node) : M unit :=
  ctx ← field audioContext;
  match ctx with
  | None => ret tt
  | Some ac =>
      let bufferSize := (sampleRate ac * duration)%Q in
      buffer ← createBuffer 1 bufferSize (sampleRate ac);
      emit (GetChannelData buffer 0) ;;
      first ← get drawn;
      let count := Z.to_N (Qceiling bufferSize) in
      modify (set_drawn (first + count)%N) ;;
      emit (WriteSamples buffer first count) ;;
      noise ← createBufferSource;
      emit (SetBuffer noise buffer) ;;
      filter ← createBiquadFilter;
      emit (SetFilterType filter lowpass) ;;
      emit (SetFrequencyValue filter (Hz cutoff)) ;;
      gain ← createGain;
      t0 ← get currentTime;
      emit (GainSetValueAtTime gain volume t0) ;;
      t1 ← get currentTime;
      emit (GainLinearRamp gain 0 (t1 + duration)) ;;
      emit (Connect noise (NodeRef filter)) ;;
      emit (Connect filter (NodeRef gain)) ;;
      master ← field masterGain;
      connect gain (orElse destination master) ;;
      t2 ← get currentTime;
      emit (Start noise t2)
  end.

Definition playCreak : M unit :=
  ctx ← field audioContext;
  match ctx with
  | None => ret tt
  | Some _ =>
      osc ← createOscillator;
      gain ← createGain;
      emit (SetOscType osc sawtooth) ;;
      r0 ← random;
      t0 ← get currentTime;
      emit (FreqSetValueAtTime osc (100 + r0 * 50) t0) ;;
      r1 ← random;
      t1 ← get currentTime;
      emit (FreqLinearRamp osc (60 + r1 * 30) (t1 + 0.3)) ;;
      t2 ← get currentTime;
      emit (GainSetValueAtTime gain 0.03 t2) ;;
      t3 ← get currentTime;
      emit (GainExponentialRamp gain 0.001 (t3 + 0.3)) ;;
      emit (Connect osc (NodeRef gain)) ;;
      music ← field musicGain;
      connect gain music ;;
      t4 ← get currentTime;
      emit (Start osc t4) ;;
      t5 ← get currentTime;
      emit (Stop osc (t5 + 0.3))
  end.

Definition playWind (duration : Q) : M unit :=
  music ← field musicGain;
  playFilteredNoise duration 300 0.05 music.

Definition playHover : M unit :=
  sfx ← field sfxGain; playNote (Hz 880) 0.03 square 0.02 sfx.

Definition playClick : M unit :=
  sfx ← field sfxGain; playNote (Hz 440) 0.05 square 0.05 sfx.

(** ** Generators *)

(** The closure [playDrone] of [startDrone]. *)
Definition playDrone : M unit :=
  music ← field musicGain;
  playNote (Hz baseFreq) 8 sine 0.04 music ;;
  music ← field musicGain;
  playNote (Hz (baseFreq * 1.5)) 8 sine 0.025 music ;;
  music ← field musicGain;
  playNote (Hz (baseFreq * 2)) 8 triangle 0.015 music ;;
  music ← field musicGain;
  playFilteredNoise 8 100 0.02 music.

Definition startDrone : M unit :=
  ctx ← field audioContext;
  match ctx with
  | None => ret tt
  | Some _ =>
      playDrone ;;
      id ← setInterval playDroneCb 7500;
      ids ← field ambientIntervals;
      assign (set_ambientIntervals (ids ++ [id]))
  end.

(** [Math.max(0, Math.min(scaleLength - 1,
              lastNoteIndex + direction * step))] *)
Definition advanceCursor (scaleLength lastNoteIndex direction step : Z) : Z :=
  Z.max 0 (Z.min (scaleLength - 1) (lastNoteIndex + direction * step)).

(** [Math.random() > 0.5 ? 1 : -1] *)
Definition directionOf (r : Q) : Z := if Qgtb r 0.5 then 1 else -1.

(** [Math.floor(Math.random() * 3)] *)
Definition stepOf (r : Q) : Z := Qfloor (r * 3).

(** [2 + Math.floor(Math.random() * 2)] *)
Definition octaveOf (r : Q) : Z := 2 + Qfloor (r * 2).

(** [scale[i]]; [None] is JavaScript's [undefined]. *)
Definition scaleAt (scale : list Z) (i : Z) : option Z :=
  if decide (0 <= i) then scale !! Z.to_nat i else None.

(** [this.baseFreq * Math.pow(2, octave) * Math.pow(2, semitone / 12)] *)
Definition noteFreq (octave : Z) (semitone : option Z) : Freq :=
  match semitone with
  | Some s => Tempered (baseFreq * 2 ^ octave) s
  | None => NaNFreq
  end.

Definition readCell (cell : nat) : M Z :=
  get (fun w => default 0 (melodyCells w !! cell)).

Definition writeCell (cell : nat) (v : Z) : M unit :=
  modify (fun w => set_melodyCells (<[cell := v]> (melodyCells w)) w).

(** The closure [playMelodyNote] of [startMelody]; [cell] holds its
    [lastNoteIndex], and [scale] is [this.scales.phrygian]. *)
Definition playMelodyNote (cell : nat) : M unit :=
  let scale := phrygian in
  playing ← field isMusicPlaying;
  if negb playing then ret tt else
  r ← random;
  let direction := directionOf r in
  r ← random;
  let step := stepOf r in
  last ← readCell cell;
  writeCell cell
    (advanceCursor (Z.of_nat (length scale)) last direction step) ;;
  last ← readCell cell;
  let semitone := scaleAt scale last in
  r ← random;
  let octave := octaveOf r in
  let freq := noteFreq octave semitone in
  r ← random;
  music ← field musicGain;
  playNote freq (2 + r * 2) triangle 0.03 music ;;
  r ← random;
  if Qgtb r 0.6 then
    last ← readCell cell;
    let harmonyIndex := Z.rem (last + 2) (Z.of_nat (length scale)) in
    let harmonySemitone := scaleAt scale harmonyIndex in
    let harmonyFreq := noteFreq octave harmonySemitone in
    music ← field musicGain;
    playNote harmonyFreq 1.5 sine 0.02 music
  else ret tt.

Definition startMelody : M unit :=
  ctx ← field audioContext;
  match ctx with
  | None => ret tt
  | Some _ =>
      cell ← get (fun w => length (melodyCells w));
      modify (fun w => set_melodyCells (melodyCells w ++ [0]) w) ;;
      r ← random;
      id ← setInterval (playMelodyNoteCb cell) (3000 + r * 4000);
      assign (set_musicInterval (Some id))
  end.

(** The two arrow functions of [startAmbientEffects]. *)
Definition windTick : M unit :=
  r ← random;
  playing ← field isMusicPlaying;
  if Qgtb r 0.7 && playing then
    r ← random; playWind (4 + r * 3)
  else ret tt.

Definition creakTick : M unit :=
  r ← random;
  playing ← field isMusicPlaying;
  if Qgtb r 0.8 && playing then playCreak else ret tt.

Definition startAmbientEffects : M unit :=
  ctx ← field audioContext;
  match ctx with
  | None => ret tt
  | Some _ =>
      windInterval ← setInterval windCb 8000;
      ids ← field ambientIntervals;
      assign (set_ambientIntervals (ids ++ [windInterval])) ;;
      creakInterval ← setInterval creakCb 12000;
      ids ← field ambientIntervals;
      assign (set_ambientIntervals (ids ++ [creakInterval]))
  end.

(** ** Playback controller *)

Definition startBackgroundMusic : M unit :=
  playing ← field isMusicPlaying;
  ctx ← field audioContext;
  if playing || absent ctx then ret tt else
  assign (set_isMusicPlaying true) ;;
  startDrone ;;
  startMelody ;;
  startAmbientEffects.

(** [ids.forEach(id => clearInterval(id))] *)
Fixpoint forEachClear (ids : list Z) : M unit :=
  match ids with
  | [] => ret tt
  | id :: rest => clearInterval id ;; forEachClear rest
  end.

(** A handle is truthy unless it is [null] or [0]. *)
Definition truthy (h : option Z) : bool :=
  match h with
  | Some id => negb (id =? 0)
  | None => false
  end.

Definition stopBackgroundMusic : M unit :=
  assign (set_isMusicPlaying false) ;;
  ids ← field ambientIntervals;
  forEachClear ids ;;
  assign (set_ambientIntervals []) ;;
  h ← field musicInterval;
  match h with
  | Some id =>
      if truthy h then
        clearInterval id ;;
        assign (set_musicInterval None)
      else ret tt
  | None => ret tt
  end.

(** ** Lifecycle *)

Definition defaultConfig : Config :=
  {| masterVolume := 0.4; musicVolume := 0.15; sfxVolume := 0.3 |}.

(** [new WerewolfPolyphonicAudio()] on a fresh page whose [Math.random]
    will return [rnd 0], [rnd 1], ... *)
Definition constructor (rnd : N -> Q) : World :=
  {| this := {| audioContext := None; masterGain := None; musicGain := None;
                sfxGain := None; isEnabled := true; isMusicPlaying := false;
                musicInterval := None; ambientIntervals := [];
                config := defaultConfig |};
     timers := ∅; nextTimer := 1; melodyCells := []; calls := [];
     nextNode := 0%nat; currentTime := 0; rand := rnd; drawn := 0%N |}.

(** [device] is what constructing the output device yields at this moment:
    [None] when the platform refuses it. *)
Definition initAudioContext (device : option AudioContext) : M unit :=
  ctx ← field audioContext;
  match ctx with
  | Some _ => ret tt
  | None =>
      try_catch
        (ac ← newAudioContext device;
         assign (set_audioContext (Some ac)) ;;
         master ← createGain;
         assign (set_masterGain (Some (NodeRef master))) ;;
         cfg ← field config;
         emit (SetGainValue master (masterVolume cfg)) ;;
         emit (Connect master Destination) ;;
         music ← createGain;
         assign (set_musicGain (Some (NodeRef music))) ;;
         cfg ← field config;
         emit (SetGainValue music (musicVolume cfg)) ;;
         master' ← field masterGain;
         connect music master' ;;
         sfx ← createGain;
         assign (set_sfxGain (Some (NodeRef sfx))) ;;
         cfg ← field config;
         emit (SetGainValue sfx (sfxVolume cfg)) ;;
         master' ← field masterGain;
         connect sfx master' ;;
         startBackgroundMusic)
        (ret tt)
  end.

(** ** The engine in its environment *)

Inductive Event :=
    (* the first click or keydown: [initAudioContext()] *)
| Gesture (device : option AudioContext)
| CallStart
| CallStop
| CallHover
| CallClick
| CallPlayNote (freq : Freq) (duration : Q) (type : Waveform) (volume : Q)
    (destination : option Node)
| CallPlayFilteredNoise (duration cutoff volume : Q) (destination : option Node)
    (* the platform fires the interval timer with handle [id] *)
| Tick (id : Z)
    (* the device clock advances *)
| Elapse (dt : Q)
    (* other code of the page takes a timer handle *)
| ForeignTimer.

Definition runCallback (cb : Callback) : M unit :=
  match cb with
  | playDroneCb => playDrone
  | playMelodyNoteCb cell => playMelodyNote cell
  | windCb => windTick
  | creakCb => creakTick
  end.

(** A cleared timer is never fired. *)
Definition tick (id : Z) : M unit :=
  live ← get timers;
  match live !! id with
  | Some t => runCallback (callback t)
  | None => ret tt
  end.

Definition elapse (dt : Q) : M unit :=
  modify (fun w => if Qle_bool 0 dt
                   then set_currentTime (currentTime w + dt)%Q w else w).

Definition exec (e : Event) : M unit :=
  match e with
  | Gesture device => initAudioContext device
  | CallStart => startBackgroundMusic
  | CallStop => stopBackgroundMusic
  | CallHover => playHover
  | CallClick => playClick
  | CallPlayNote f d ty v dst => playNote f d ty v dst
  | CallPlayFilteredNoise d c v dst => playFilteredNoise d c v dst
  | Tick id => tick id
  | Elapse dt => elapse dt
  | ForeignTimer => modify (fun w => set_nextTimer (nextTimer w + 1) w)
  end.

(** Events in sequence; the run ends at the first one that throws. *)
Fixpoint run (es : list Event) : M unit :=
  match es with
  | [] => ret tt
  | e :: rest => exec e ;; run rest
  end.

(** ** Observing the device *)

(** The device calls of one note: oscillator [osc], envelope [S osc]. *)
Definition noteCalls (osc : nat) (now : Q) (freq : Freq) (duration : Q)
    (type : Waveform) (volume : Q) (bus : Node) : list DeviceCall :=
  [ CreateOscillator osc; CreateGain (S osc);
    SetOscType osc type; SetFrequencyValue osc freq;
    GainSetValueAtTime (S osc) volume now;
    GainExponentialRamp (S osc) 0.001 (now + duration);
    Connect osc (NodeRef (S osc)); Connect (S osc) bus;
    Start osc now; Stop osc (now + duration) ].

(** The device calls of one burst of filtered noise: buffer [b], source
    [b + 1], filter [b + 2], envelope [b + 3]. *)
Definition noiseCalls (b : nat) (now rate : Q) (first : N)
    (duration cutoff volume : Q) (bus : Node) : list DeviceCall :=
  [ CreateBuffer b 1 (rate * duration) rate; GetChannelData b 0;
    WriteSamples b first (Z.to_N (Qceiling (rate * duration)));
    CreateBufferSource (b + 1); SetBuffer (b + 1) b;
    CreateBiquadFilter (b + 2); SetFilterType (b + 2) lowpass;
    SetFrequencyValue (b + 2) (Hz cutoff);
    CreateGain (b + 3);
    GainSetValueAtTime (b + 3) volume now;
    GainLinearRamp (b + 3) 0 (now + duration);
    Connect (b + 1) (NodeRef (b + 2)); Connect (b + 2) (NodeRef (b + 3));
    Connect (b + 3) bus;
    Start (b + 1) now ].

(** The sources set sounding in a log, with their onsets. *)
Definition started (log : list DeviceCall) : list (nat * Q) :=
  omap (fun c => match c with Start n t => Some (n, t) | _ => None end) log.

(** The stops scheduled in a log. *)
Definition stops (log : list DeviceCall) : list (nat * Q) :=
  omap (fun c => match c with Stop n t => Some (n, t) | _ => None end) log.

(** The device calls made between two worlds. *)
Definition emitted (w w' : World) : list DeviceCall :=
  drop (length (calls w)) (calls w').

(** [creating n cs w]: the device created [n] objects and received [cs]. *)
Definition creating (n : nat) (cs : list DeviceCall) (w : World) : World :=
  set_nextNode (n + nextNode w) (set_calls (calls w ++ cs) w).

(** A sequence of melodic advances, each a [(direction, step)] pair, applied
    to the cursor with the expression of [playMelodyNote]. *)
Definition advanceAll (scaleLength lastNoteIndex : Z)
    (moves : list (Z * Z)) : Z :=
  foldl (fun i move => advanceCursor scaleLength i move.1 move.2)
    lastNoteIndex moves.

(** The device stays unavailable throughout an event. *)
Definition deviceDenied (e : Event) : Prop :=
  match e with
  | Gesture (Some _) => False
  | _ => True
  end.

(** The device calls of one drone chord, [n] being its first node. *)
Definition droneCalls (n : nat) (now rate : Q) (first : N) (bus : Node)
    : list DeviceCall :=
  noteCalls n now (Hz baseFreq) 8 sine 0.04 bus ++
  noteCalls (n + 2) now (Hz (baseFreq * 1.5)) 8 sine 0.025 bus ++
  noteCalls (n + 4) now (Hz (baseFreq * 2)) 8 triangle 0.015 bus ++
  noiseCalls (n + 6) now rate first 8 100 0.02 bus.

(** The events that only synthesise sound or let time pass: cues, direct
    calls of the two primitives, timer ticks, clock advances. *)
Definition synthEvent (e : Event) : Prop :=
  match e with
  | CallHover | CallClick | CallPlayNote _ _ _ _ _
  | CallPlayFilteredNoise _ _ _ _ | Tick _ | Elapse _ => True
  | _ => False
  end.

(** The engine as the page creates it, with the volumes of [cfg] in place of
    the default ones. *)
Definition configured (cfg : Config) (rnd : N -> Q) : World :=
  set_this (set_config cfg) (constructor rnd).

(** The node a device call acts on. *)
Definition subject (c : DeviceCall) : nat :=
  match c with
  | CreateGain n | CreateOscillator n | CreateBuffer n _ _ _
  | GetChannelData n _ | WriteSamples n _ _ | CreateBufferSource n
  | CreateBiquadFilter n | SetGainValue n _ | SetOscType n _
  | SetFilterType n _ | SetFrequencyValue n _ | SetBuffer n _
  | GainSetValueAtTime n _ _ | GainExponentialRamp n _ _
  | GainLinearRamp n _ _ | FreqSetValueAtTime n _ _ | FreqLinearRamp n _ _
  | Connect n _ | Start n _ | Stop n _ => n
  end.

(** The device calls with which [initAudioContext] builds the gain chain:
    master is node 0, the music bus node 1, the sfx bus node 2. *)
Definition graphCalls (cfg : Config) : list DeviceCall :=
  [ CreateGain 0; SetGainValue 0 (masterVolume cfg); Connect 0 Destination;
    CreateGain 1; SetGainValue 1 (musicVolume cfg); Connect 1 (NodeRef 0);
    CreateGain 2; SetGainValue 2 (sfxVolume cfg); Connect 2 (NodeRef 0) ].

(** The world in which [initAudioContext] calls [startBackgroundMusic]. *)
Definition wired (ac : AudioContext) (w : World) : World :=
  let n := nextNode w in
  set_this (fun e =>
              set_sfxGain (Some (NodeRef (n + 2)))
                (set_musicGain (Some (NodeRef (n + 1)))
                   (set_masterGain (Some (NodeRef n))
                      (set_audioContext (Some ac) e))))
    (set_nextNode (n + 3)
       (set_calls
          (calls w ++
           [ CreateGain n; SetGainValue n (masterVolume (config (this w)));
             Connect n Destination;
             CreateGain (n + 1);
             SetGainValue (n + 1) (musicVolume (config (this w)));
             Connect (n + 1) (NodeRef n);
             CreateGain (n + 2);
             SetGainValue (n + 2) (sfxVolume (config (this w)));
             Connect (n + 2) (NodeRef n) ])
          (set_currentTime 0 w))).

(** The timer handles the engine has recorded. *)
Definition recorded (e : Engine) : gset Z :=
  list_to_set (ambientIntervals e) ∪
  match musicInterval e with Some id => {[ id ]} | None => ∅ end.

(** [w'] extends the device log of [w] with calls on new nodes only. *)
Definition extends (w w' : World) : Prop :=
  (nextNode w <= nextNode w')%nat /\
  exists cs, calls w' = calls w ++ cs /\
             Forall (fun c => (nextNode w <= subject c < nextNode w')%nat) cs.

(** The three fixed-period generators run at the period of the source. *)
Definition fixedDelay (t : Timer) : Prop :=
  match callback t with
  | playDroneCb => delay t = 7500%Q
  | windCb => delay t = 8000%Q
  | creakCb => delay t = 12000%Q
  | playMelodyNoteCb _ => True
  end.

(** What holds of every world the engine can reach. *)
Record Inv (w : World) : Prop := {
  inv_handle : 0 < nextTimer w;
  inv_live : forall id, id ∈ dom (timers w) -> 0 < id < nextTimer w;
  inv_recorded : dom (timers w) = recorded (this w);
  inv_stopped :
    isMusicPlaying (this w) = false ->
    ambientIntervals (this w) = [] /\ musicInterval (this w) = None;
  inv_delays : forall id t, timers w !! id = Some t -> fixedDelay t;
  inv_graph :
    match audioContext (this w) with
    | None => calls w = [] /\ nextNode w = 0%nat
    | Some _ =>
        masterGain (this w) = Some (NodeRef 0) /\
        musicGain (this w) = Some (NodeRef 1) /\
        sfxGain (this w) = Some (NodeRef 2) /\
        (3 <= nextNode w)%nat /\
        exists rest,
          calls w = graphCalls (config (this w)) ++ rest /\
          Forall (fun c => (3 <= subject c < nextNode w)%nat) rest
    end
}.

(** The device calls that originate from the generators during a run:
    those made while an interval timer fires. *)
Fixpoint tickCalls (es : list Event) (w : World) : list DeviceCall :=
  match es with
  | [] => []
  | e :: rest =>
      let w' := after (exec e w) in
      match e with Tick _ => emitted w w' | _ => [] end ++
      (if threw (exec e w) then [] else tickCalls rest w')
  end.

(** Whether the engine holds an audio context. *)
Definition initialised (w : World) : bool :=
  negb (absent (audioContext (this w))).

(** The events that do not start the music again: anything but
    [startBackgroundMusic] and the gesture that initialises, and thereby
    starts, an engine that was not initialised yet. *)
Definition staysStopped (init : bool) (e : Event) : Prop :=
  match e with
  | CallStart => False
  | Gesture (Some _) => init = true
  | _ => True
  end.

(** The most recent call of a log that [sel] selects. *)
Definition latest {A} (sel : DeviceCall -> option A) (log : list DeviceCall)
    : option A :=
  last (omap sel log).

Definition gainSel (n : nat) (c : DeviceCall) : option Q :=
  match c with
  | SetGainValue m v | GainSetValueAtTime m v _ =>
      if decide (m = n) then Some v else None
  | _ => None
  end.

Definition outSel (n : nat) (c : DeviceCall) : option Node :=
  match c with
  | Connect m d => if decide (m = n) then Some d else None
  | _ => None
  end.

(** The gain node [n] applies when the envelope set on it begins: the value
    last assigned or scheduled; a node on which no gain was ever set passes
    its input unchanged. *)
Definition gainOf (log : list DeviceCall) (n : nat) : Q :=
  default 1%Q (latest (gainSel n) log).

(** The node [n] feeds (every node of this program is connected once). *)
Definition outputOf (log : list DeviceCall) (n : nat) : option Node :=
  latest (outSel n) log.

(** The product of the gains from a node down to the destination, following
    at most [fuel] connections. *)
Fixpoint pathGain (fuel : nat) (log : list DeviceCall) (from : Node)
    : option Q :=
  match from with
  | Destination => Some 1%Q
  | NodeRef n =>
      match fuel with
      | O => None
      | S fuel' =>
          match outputOf log n with
          | None => None
          | Some next =>
              match pathGain fuel' log next with
              | Some g => Some (gainOf log n * g)%Q
              | None => None
              end
          end
      end
  end.

(** Every melodic cursor is an index into the scale of [playMelodyNote]. *)
Definition cursorsInRange (w : World) : Prop :=
  Forall (fun i => 0 <= i <= Z.of_nat (length phrygian) - 1) (melodyCells w).

(** [Math.random()] returns numbers of [0, 1). *)
Definition unitOracle (w : World) : Prop :=
  forall k, (0 <= rand w k)%Q /\ (rand w k < 1)%Q.

(** The device calls of one creak sliding from [high] to [low] Hz. *)
Definition creakCalls (osc : nat) (now high low : Q) (bus : Node)
    : list DeviceCall :=
  [ CreateOscillator osc; CreateGain (S osc); SetOscType osc sawtooth;
    FreqSetValueAtTime osc high now; FreqLinearRamp osc low (now + 0.3);
    GainSetValueAtTime (S osc) 0.03 now;
    GainExponentialRamp (S osc) 0.001 (now + 0.3);
    Connect osc (NodeRef (S osc)); Connect (S osc) bus;
    Start osc now; Stop osc (now + 0.3) ].

(** The timer table one [startBackgroundMusic] sets up, [h] being the first
    handle it obtains. *)
Definition fourTimers (h : Z) (cell : nat) (period : Q) : gmap Z Timer :=
  <[h + 3 := {| callback := creakCb; delay := 12000 |}]>
    (<[h + 2 := {| callback := windCb; delay := 8000 |}]>
       (<[h + 1 := {| callback := playMelodyNoteCb cell; delay := period |}]>
          (<[h := {| callback := playDroneCb; delay := 7500 |}]> ∅))).

(** The timers and handles mirror the playing flag. *)
Definition Mirror (w : World) : Prop :=
  if isMusicPlaying (this w)
  then initialised w = true /\
       exists h cell period,
         timers w = fourTimers h cell period /\
         S cell = length (melodyCells w) /\
         ambientIntervals (this w) = [h; h + 2; h + 3] /\
         musicInterval (this w) = Some (h + 1) /\
         h + 3 < nextTimer w
  else timers w = ∅ /\
       ambientIntervals (this w) = [] /\ musicInterval (this w) = None.

(** The period of every live melody timer is [3000 + Math.random() * 4000]
    for a number [Math.random] has already returned. *)
Definition periodDrawn (w : World) : Prop :=
  forall id t cell,
    timers w !! id = Some t -> callback t = playMelodyNoteCb cell ->
    exists k, (k < drawn w)%N /\ delay t = (3000 + rand w k * 4000)%Q.

(** The [(direction, step)] pairs that [n] consecutive firings of
    [playMelodyNote] draw when the first of them starts at oracle position
    [first]: a firing consumes five numbers, the first two for the move. *)
Fixpoint drawnMoves (rnd : N -> Q) (first : N) (n : nat) : list (Z * Z) :=
  match n with
  | O => []
  | S n' =>
      (directionOf (rnd first), stepOf (rnd (first + 1)%N))
      :: drawnMoves rnd (first + 5)%N n'
  end.

(** An engine that was initialised on a 48 kHz device and is playing. *)
Definition playingWorld : World :=
  after (initAudioContext (Some {| sampleRate := 48000 |})
           (constructor (fun _ => 0.9%Q))).

(** The playing engine of [playingWorld] after [stopBackgroundMusic]. *)
Definition stoppedWorld : World :=
  after (stopBackgroundMusic playingWorld).

(** * Properties *)

(** ** Symbolic execution of the primitives *)

(** Runs a statement on a world given by its fields.  The reduction is
    call-by-value, so a world is never copied before it is evaluated. *)
Ltac js_unfold :=
  cbv beta iota zeta delta
    [ bind ret throw try_catch get modify field assign random setInterval
      clearInterval emit fresh newAudioContext createGain createOscillator
      createBufferSource createBiquadFilter createBuffer connect
      readCell writeCell
      playNote playFilteredNoise playCreak playWind playHover playClick
      creating
      set_audioContext set_masterGain set_musicGain set_sfxGain
      set_isMusicPlaying set_musicInterval set_ambientIntervals set_config
      set_this set_timers set_nextTimer set_melodyCells set_calls
      set_nextNode set_currentTime set_drawn
      this timers nextTimer melodyCells calls nextNode currentTime rand drawn
      audioContext masterGain musicGain sfxGain isEnabled isMusicPlaying
      musicInterval ambientIntervals config ].

(** The same for the generators, the controller and the event loop. *)
Ltac js_all :=
  cbv beta iota zeta delta
    [ bind ret throw try_catch get modify field assign random setInterval
      clearInterval emit fresh newAudioContext createGain createOscillator
      createBufferSource createBiquadFilter createBuffer connect
      readCell writeCell
      playNote playFilteredNoise playCreak playWind playHover playClick
      playDrone startDrone playMelodyNote startMelody windTick creakTick
      startAmbientEffects startBackgroundMusic stopBackgroundMusic
      initAudioContext runCallback tick elapse exec
      creating
      set_audioContext set_masterGain set_musicGain set_sfxGain
      set_isMusicPlaying set_musicInterval set_ambientIntervals set_config
      set_this set_timers set_nextTimer set_melodyCells set_calls
      set_nextNode set_currentTime set_drawn
      this timers nextTimer melodyCells calls nextNode currentTime rand drawn
      audioContext masterGain musicGain sfxGain isEnabled isMusicPlaying
      musicInterval ambientIntervals config callback delay
      absent negb orb andb ].

(** Splits on the first condition that blocks the execution. *)
Ltac js_branch :=
  match goal with
  | |- context [if ?c then _ else _] => destruct c eqn:?
  | |- context [match ?c with Some _ => _ | None => _ end] => destruct c eqn:?
  end.

Ltac js_run := js_all; repeat (js_branch; js_all).

Ltac world_fields w :=
  destruct w as [[ctx master music sfx enabled playing melody ambient cfg]
                   live handle cells log node now rnd used];
  cbn [this timers nextTimer melodyCells calls nextNode currentTime rand drawn
       audioContext masterGain musicGain sfxGain isEnabled isMusicPlaying
       musicInterval ambientIntervals config] in *.

Lemma emitted_creating n cs w : emitted w (creating n cs w) = cs.
Proof.
  world_fields w. unfold emitted. js_unfold. by rewrite drop_app_length.
Qed.

Lemma emitted_refl w : emitted w w = [].
Proof. unfold emitted. by rewrite drop_all. Qed.

Lemma playNote_run freq duration type volume destination w ac bus :
  audioContext (this w) = Some ac ->
  orElse destination (masterGain (this w)) = Some bus ->
  playNote freq duration type volume destination w =
  Ok tt (creating 2 (noteCalls (nextNode w) (currentTime w) freq duration
                       type volume bus) w).
Proof.
  world_fields w. intros -> Hbus.
  js_unfold. rewrite Hbus. js_unfold.
  unfold noteCalls. by rewrite <- !app_assoc.
Qed.

Lemma playNote_null freq duration type volume destination w ac :
  audioContext (this w) = Some ac ->
  orElse destination (masterGain (this w)) = None ->
  threw (playNote freq duration type volume destination w) = true.
Proof.
  world_fields w. intros -> Hbus.
  js_unfold. by rewrite Hbus.
Qed.

Lemma playFilteredNoise_run duration cutoff volume destination w ac bus :
  audioContext (this w) = Some ac ->
  orElse destination (masterGain (this w)) = Some bus ->
  playFilteredNoise duration cutoff volume destination w =
  Ok tt (set_drawn (drawn w + Z.to_N (Qceiling (sampleRate ac * duration)))
           (creating 4 (noiseCalls (nextNode w) (currentTime w) (sampleRate ac)
                          (drawn w) duration cutoff volume bus) w)).
Proof.
  world_fields w. intros -> Hbus.
  js_unfold. rewrite Hbus. js_unfold.
  unfold noiseCalls. rewrite <- !app_assoc; simpl.
  by rewrite !Nat.add_succ_r, Nat.add_0_r.
Qed.

Lemma emitted_set_drawn n w w' : emitted w (set_drawn n w') = emitted w w'.
Proof. by destruct w'. Qed.

(** ** NoteSynthesizer *)

(** C5.  On an initialised device, [playNote] sets the envelope gain to the
    peak gain at the onset, ramps it exponentially to 0.001 at
    onset + duration, starts the oscillator at the onset and schedules its
    stop at exactly onset + duration. *)
Theorem playNote_envelope_and_stop
    freq duration type volume destination w ac master :
  audioContext (this w) = Some ac ->
  masterGain (this w) = Some master ->
  exists w',
    playNote freq duration type volume destination w = Ok tt w' /\
    let osc := nextNode w in
    let envelope := S osc in
    let onset := currentTime w in
    emitted w w' =
      [ CreateOscillator osc; CreateGain envelope;
        SetOscType osc type; SetFrequencyValue osc freq;
        GainSetValueAtTime envelope volume onset;
        GainExponentialRamp envelope 0.001 (onset + duration);
        Connect osc (NodeRef envelope);
        Connect envelope (default master destination);
        Start osc onset; Stop osc (onset + duration) ] /\
    started (emitted w w') = [(osc, onset)] /\
    stops (emitted w w') = [(osc, (onset + duration)%Q)].
Proof.
  intros Hctx Hmaster.
  assert (Hbus : orElse destination (masterGain (this w))
                 = Some (default master destination)).
  { rewrite Hmaster. by destruct destination. }
  eexists; split; [exact (playNote_run _ _ _ _ _ _ _ _ Hctx Hbus) |].
  by rewrite emitted_creating.
Qed.

Lemma playNote_envelope_and_stop_witness :
  exists w',
    playNote (Hz 440) 0.05 square 0.05 (sfxGain (this playingWorld))
      playingWorld = Ok tt w' /\
    emitted playingWorld w' =
      [ CreateOscillator 13; CreateGain 14;
        SetOscType 13 square; SetFrequencyValue 13 (Hz 440);
        GainSetValueAtTime 14 0.05 0;
        GainExponentialRamp 14 0.001 (0 + 0.05);
        Connect 13 (NodeRef 14); Connect 14 (NodeRef 2);
        Start 13 0; Stop 13 (0 + 0.05) ] /\
    started (emitted playingWorld w') = [(13%nat, 0%Q)] /\
    stops (emitted playingWorld w') = [(13%nat, (0 + 0.05)%Q)].
Proof.
  pose proof (playNote_envelope_and_stop (Hz 440) 0.05 square 0.05
                (sfxGain (this playingWorld)) playingWorld
                {| sampleRate := 48000 |} (NodeRef 0)) as H.
  vm_compute in H. vm_compute. apply H; reflexivity.
Defined.



(** ** MelodyGenerator: the cursor *)

Lemma advanceCursor_range len i direction step :
  0 < len -> 0 <= advanceCursor len i direction step <= len - 1.
Proof. unfold advanceCursor. lia. Qed.

Lemma advanceAll_range len moves : forall i,
  0 < len -> 0 <= i <= len - 1 -> 0 <= advanceAll len i moves <= len - 1.
Proof.
  induction moves as [| [direction step] moves IH]; intros i Hlen Hi.
  - exact Hi.
  - apply IH; [exact Hlen |]. by apply advanceCursor_range.
Qed.

Lemma advanceAll_up2 len n : forall i,
  0 <= i <= len - 1 ->
  advanceAll len i (replicate n (1, 2)) = Z.min (i + 2 * Z.of_nat n) (len - 1).
Proof.
  induction n as [| n IH]; intros i Hi.
  - simpl. lia.
  - change (advanceAll len i (replicate (S n) (1, 2)))
      with (advanceAll len (advanceCursor len i 1 2) (replicate n (1, 2))).
    rewrite IH; unfold advanceCursor; lia.
Qed.

Lemma directionOf_cases r : directionOf r = 1 \/ directionOf r = -1.
Proof. unfold directionOf. destruct (Qgtb r 0.5); auto. Qed.

Lemma Qfloor_scaled r (k : Z) :
  0 < k -> (0 <= r)%Q -> (r < 1)%Q -> 0 <= Qfloor (r * inject_Z k) < k.
Proof.
  intros Hk H0 H1.
  assert (Hk' : (inject_Z 0 < inject_Z k)%Q) by (by rewrite <- Zlt_Qlt).
  pose proof (Qfloor_le (r * inject_Z k)) as Hlo.
  pose proof (Qlt_floor (r * inject_Z k)) as Hhi.
  split.
  - assert (H : (inject_Z 0 < inject_Z (Qfloor (r * inject_Z k) + 1))%Q).
    { eapply Qle_lt_trans; [| exact Hhi].
      apply Qmult_le_0_compat; [exact H0 | by apply Qlt_le_weak]. }
    rewrite <- Zlt_Qlt in H. lia.
  - rewrite Zlt_Qlt. eapply Qle_lt_trans; [exact Hlo |].
    rewrite <- (Qmult_1_l (inject_Z k)) at 2.
    by apply Qmult_lt_compat_r.
Qed.

Lemma stepOf_range r : (0 <= r)%Q -> (r < 1)%Q -> 0 <= stepOf r <= 2.
Proof.
  intros H0 H1. pose proof (Qfloor_scaled r 3 eq_refl H0 H1) as H.
  unfold stepOf. change 3%Q with (inject_Z 3). lia.
Qed.

(** ** A disabled engine *)

Lemma forEachClear_run ids : forall w,
  forEachClear ids w
  = Ok tt (set_timers (fun live => foldl (fun m id => delete id m) live ids) w).
Proof.
  induction ids as [| id ids IH]; intros w.
  - by destruct w.
  - simpl. unfold bind, clearInterval, modify. rewrite IH. by destruct w.
Qed.

Lemma stopBackgroundMusic_run w :
  stopBackgroundMusic w
  = Ok tt
      (set_this
         (fun e =>
            set_musicInterval
              (if truthy (musicInterval e) then None else musicInterval e)
              (set_ambientIntervals [] (set_isMusicPlaying false e)))
         (set_timers
            (fun live =>
               let live' := foldl (fun m id => delete id m) live
                              (ambientIntervals (this w)) in
               match musicInterval (this w) with
               | Some id => if truthy (Some id) then delete id live' else live'
               | None => live'
               end) w)).
Proof.
  world_fields w. unfold stopBackgroundMusic.
  js_unfold. rewrite forEachClear_run. js_unfold.
  destruct melody as [id |]; [| done].
  js_unfold. by destruct (truthy (Some id)).
Qed.

Lemma disabled_step e w :
  audioContext (this w) = None ->
  deviceDenied e ->
  exists w', exec e w = Ok tt w' /\
             audioContext (this w') = None /\ calls w' = calls w /\
             nextNode w' = nextNode w.
Proof.
  intros Hctx He.
  destruct e as [[ac |] | | | | | f d ty v dst | d c v dst | id | dt |];
    try done;
    try (world_fields w; subst; js_run; by eauto).
  - eexists; split; [apply stopBackgroundMusic_run |].
    world_fields w. by subst.
  - world_fields w; subst. js_all.
    destruct (live !! id) as [[[| cell | |] ms] |]; js_run; eauto.
Qed.

Lemma disabled_run es : forall w,
  audioContext (this w) = None ->
  Forall deviceDenied es ->
  exists w', run es w = Ok tt w' /\
             audioContext (this w') = None /\ calls w' = calls w.
Proof.
  induction es as [| e es IH]; intros w Hctx Hes.
  - by exists w.
  - inversion Hes as [| ? ? He Hes']; subst.
    destruct (disabled_step e w Hctx He) as (w1 & Hrun & Hctx1 & Hcalls1 & _).
    destruct (IH w1 Hctx1 Hes') as (w2 & Hrun2 & Hctx2 & Hcalls2).
    exists w2. simpl. unfold bind. rewrite Hrun.
    repeat split; [done | done | congruence].
Qed.

Lemma initAudioContext_denied w :
  audioContext (this w) = None -> initAudioContext None w = Ok tt w.
Proof. world_fields w. intros ->. by js_all. Qed.

Lemma initAudioContext_run w ac :
  audioContext (this w) = None ->
  initAudioContext (Some ac) w
  = try_catch startBackgroundMusic (ret tt) (wired ac w).
Proof.
  world_fields w. intros ->. unfold initAudioContext, try_catch.
  js_unfold. unfold wired. js_unfold.
  rewrite <- !app_assoc. cbn [app].
  by rewrite !Nat.add_succ_r, Nat.add_0_r.
Qed.

Lemma start_keeps_context w ac :
  audioContext (this w) = Some ac ->
  let w' := after (try_catch startBackgroundMusic (ret tt) w) in
  audioContext (this w') = Some ac /\ isMusicPlaying (this w') = true.
Proof.
  world_fields w. intros ->. cbv zeta. unfold try_catch.
  js_run; cbv beta iota delta [after]; js_all; try done.
  by destruct playing.
Qed.

(** C3.  When the output device cannot be constructed, [initAudioContext]
    returns normally and leaves the engine as it was, [audioContext] null.
    While [audioContext] is null, that is until a later gesture finds the
    device available, every call of [startBackgroundMusic],
    [stopBackgroundMusic], [playHover], [playClick], [playNote] and
    [playFilteredNoise] (and every timer tick and refused gesture) returns
    without throwing, makes no device call and leaves [audioContext] null.
    The functions test [audioContext]; [initAudioContext] holds the only
    [try].  The failure is not latched: a later gesture that finds the
    device available initialises the engine and starts the music. *)
Theorem disabled_engine_is_silent w :
  audioContext (this w) = None ->
  initAudioContext None w = Ok tt w /\
  (forall es,
     Forall deviceDenied es ->
     exists w', run es w = Ok tt w' /\
                audioContext (this w') = None /\ emitted w w' = []) /\
  (forall ac,
     let w' := after (exec (Gesture (Some ac)) w) in
     audioContext (this w') = Some ac /\ isMusicPlaying (this w') = true).
Proof.
  intros Hctx. split; [| split].
  - by apply initAudioContext_denied.
  - intros es Hes.
    destruct (disabled_run es w Hctx Hes) as (w' & Hrun & Hctx' & Hcalls).
    exists w'. repeat split; [done | done |].
    unfold emitted. rewrite Hcalls. apply drop_all.
  - intros ac. cbv zeta. simpl. rewrite initAudioContext_run by done.
    apply (start_keeps_context (wired ac w) ac). by destruct w.
Qed.

Lemma disabled_engine_is_silent_witness :
  initAudioContext None (constructor (fun _ => 0.9%Q))
  = Ok tt (constructor (fun _ => 0.9%Q)) /\
  (exists w',
     run [ CallStart; CallHover; CallStop; CallClick;
           CallPlayNote (Hz 440) 1 sine 0.1 None;
           CallPlayFilteredNoise 1 300 0.05 None; Gesture None; Tick 1 ]
       (constructor (fun _ => 0.9%Q)) = Ok tt w' /\
     audioContext (this w') = None /\
     emitted (constructor (fun _ => 0.9%Q)) w' = []) /\
  (audioContext
     (this (after (exec (Gesture (Some {| sampleRate := 48000 |}))
                     (constructor (fun _ => 0.9%Q)))))
   = Some {| sampleRate := 48000 |} /\
   isMusicPlaying
     (this (after (exec (Gesture (Some {| sampleRate := 48000 |}))
                     (constructor (fun _ => 0.9%Q)))))
   = true).
Proof.
  destruct (disabled_engine_is_silent (constructor (fun _ => 0.9%Q)) eq_refl)
    as (Hinit & Hsilent & Hretry).
  split; [exact Hinit | split; [| apply Hretry]].
  apply Hsilent. repeat constructor.
Defined.

(** The disabled state is not permanent, contrary to the wording of the
    specification.  A refused gesture followed by an accepted one (the
    page registers two one-shot listeners) leaves an initialised, playing
    engine, and the next [playHover] reaches the device. *)
Lemma disabled_state_is_not_permanent :
  exec (Gesture None) (constructor (fun _ => 0.9%Q))
  = Ok tt (constructor (fun _ => 0.9%Q)) /\
  audioContext (this (constructor (fun _ => 0.9%Q))) = None /\
  (exists w1 w2,
     exec (Gesture (Some {| sampleRate := 48000 |}))
       (constructor (fun _ => 0.9%Q)) = Ok tt w1 /\
     isMusicPlaying (this w1) = true /\
     exec CallHover w1 = Ok tt w2 /\
     emitted w1 w2
     = noteCalls 13 0 (Hz 880) 0.03 square 0.02 (NodeRef 2) /\
     length (calls w2) = 64%nat) /\
  ~ (forall es,
       exists w',
         run (Gesture None :: es) (constructor (fun _ => 0.9%Q)) = Ok tt w' /\
         emitted (constructor (fun _ => 0.9%Q)) w' = []).
Proof.
  split; [reflexivity | split; [reflexivity | split]].
  - eexists _, _.
    split; [vm_compute; reflexivity |].
    split; [reflexivity |].
    split; [vm_compute; reflexivity |].
    split; vm_compute; reflexivity.
  - intros H.
    destruct (H [Gesture (Some {| sampleRate := 48000 |}); CallHover])
      as (w' & Hrun & Hsilent).
    vm_compute in Hrun. injection Hrun as <-.
    vm_compute in Hsilent. discriminate Hsilent.
Qed.

(** ** PlaybackController *)

Lemma startBackgroundMusic_playing w :
  isMusicPlaying (this w) = true -> startBackgroundMusic w = Ok tt w.
Proof. world_fields w. intros ->. by js_all. Qed.

Lemma startBackgroundMusic_disabled w :
  audioContext (this w) = None -> startBackgroundMusic w = Ok tt w.
Proof. world_fields w. intros ->. js_all. by destruct playing. Qed.

Ltac js_calls :=
  unfold droneCalls, noteCalls, noiseCalls;
  rewrite <- ?app_assoc; cbn [app];
  rewrite ?Nat.add_succ_r, ?Nat.add_0_r.

Lemma playDrone_run w ac bus :
  audioContext (this w) = Some ac ->
  orElse (musicGain (this w)) (masterGain (this w)) = Some bus ->
  playDrone w =
  Ok tt (set_drawn (drawn w + Z.to_N (Qceiling (sampleRate ac * 8)))
           (creating 10 (droneCalls (nextNode w) (currentTime w)
                           (sampleRate ac) (drawn w) bus) w)).
Proof.
  world_fields w. intros -> Hbus.
  js_all. rewrite Hbus. js_all. rewrite Hbus. js_all. rewrite Hbus. js_all.
  rewrite Hbus. js_all. by js_calls.
Qed.

Lemma startBackgroundMusic_run w ac bus :
  audioContext (this w) = Some ac ->
  isMusicPlaying (this w) = false ->
  orElse (musicGain (this w)) (masterGain (this w)) = Some bus ->
  let h := nextTimer w in
  let used := (drawn w + Z.to_N (Qceiling (sampleRate ac * 8)))%N in
  exists w',
    startBackgroundMusic w = Ok tt w' /\
    this w' = set_musicInterval (Some (h + 1))
                (set_ambientIntervals
                   (ambientIntervals (this w) ++ [h; h + 2; h + 3])
                   (set_isMusicPlaying true (this w))) /\
    timers w' =
      <[h + 3 := {| callback := creakCb; delay := 12000 |}]>
        (<[h + 2 := {| callback := windCb; delay := 8000 |}]>
           (<[h + 1 := {| callback := playMelodyNoteCb (length (melodyCells w));
                          delay := 3000 + rand w used * 4000 |}]>
              (<[h := {| callback := playDroneCb; delay := 7500 |}]>
                 (timers w)))) /\
    nextTimer w' = h + 4 /\
    melodyCells w' = melodyCells w ++ [0] /\
    calls w' = calls w ++ droneCalls (nextNode w) (currentTime w)
                            (sampleRate ac) (drawn w) bus /\
    nextNode w' = (10 + nextNode w)%nat /\
    currentTime w' = currentTime w /\
    rand w' = rand w /\
    drawn w' = N.succ used.
Proof.
  world_fields w. intros -> -> Hbus.
  js_all. rewrite Hbus. js_all. rewrite Hbus. js_all. rewrite Hbus. js_all.
  rewrite Hbus. js_all.
  eexists; split; [reflexivity |]. js_all.
  replace (handle + 1 + 1 + 1 + 1) with (handle + 4) by lia.
  replace (handle + 1 + 1 + 1) with (handle + 3) by lia.
  replace (handle + 1 + 1) with (handle + 2) by lia.
  repeat split.
  - by rewrite <- !app_assoc.
  - by js_calls.
Qed.

Lemma startBackgroundMusic_null w ac :
  audioContext (this w) = Some ac ->
  isMusicPlaying (this w) = false ->
  orElse (musicGain (this w)) (masterGain (this w)) = None ->
  threw (startBackgroundMusic w) = true.
Proof.
  world_fields w. intros -> -> Hbus.
  js_all. by rewrite Hbus.
Qed.

(** C4.  [startBackgroundMusic] does nothing while the music is playing, so
    calling it twice in a row leaves exactly the world (engine fields, live
    timers, device calls) that calling it once leaves. *)
Theorem start_is_idempotent w :
  (isMusicPlaying (this w) = true -> startBackgroundMusic w = Ok tt w) /\
  (startBackgroundMusic ;; startBackgroundMusic) w = startBackgroundMusic w.
Proof.
  split; [apply startBackgroundMusic_playing |].
  unfold bind.
  destruct (isMusicPlaying (this w)) eqn:Hplaying.
  { by rewrite !(startBackgroundMusic_playing w Hplaying). }
  destruct (audioContext (this w)) as [ac |] eqn:Hctx.
  2: { by rewrite !(startBackgroundMusic_disabled w Hctx). }
  destruct (orElse (musicGain (this w)) (masterGain (this w)))
    as [bus |] eqn:Hbus.
  - destruct (startBackgroundMusic_run w ac bus Hctx Hplaying Hbus)
      as (w' & -> & Hthis & _).
    apply startBackgroundMusic_playing. by rewrite Hthis.
  - pose proof (startBackgroundMusic_null w ac Hctx Hplaying Hbus) as H.
    by destruct (startBackgroundMusic w).
Qed.

Lemma start_is_idempotent_witness :
  startBackgroundMusic playingWorld = Ok tt playingWorld /\
  (startBackgroundMusic ;; startBackgroundMusic) playingWorld
  = startBackgroundMusic playingWorld.
Proof.
  destruct (start_is_idempotent playingWorld) as [Hnoop Htwice].
  split; [apply Hnoop; vm_compute; reflexivity | exact Htwice].
Defined.

(** ** MelodyGenerator: one tick *)

Lemma playMelodyNote_stopped cell w :
  isMusicPlaying (this w) = false -> playMelodyNote cell w = Ok tt w.
Proof. world_fields w. intros ->. by js_all. Qed.

Lemma playMelodyNote_run cell w ac bus :
  audioContext (this w) = Some ac ->
  isMusicPlaying (this w) = true ->
  orElse (musicGain (this w)) (masterGain (this w)) = Some bus ->
  let r k := rand w (drawn w + k)%N in
  let cells' :=
    <[cell := advanceCursor 7 (default 0 (melodyCells w !! cell))
                (directionOf (r 0%N)) (stepOf (r 1%N))]> (melodyCells w) in
  let cursor := default 0 (cells' !! cell) in
  let octave := octaveOf (r 2%N) in
  let harmony := Qgtb (r 4%N) 0.6 in
  exists w',
    playMelodyNote cell w = Ok tt w' /\
    this w' = this w /\ timers w' = timers w /\ nextTimer w' = nextTimer w /\
    melodyCells w' = cells' /\
    calls w' =
      calls w ++
      noteCalls (nextNode w) (currentTime w)
        (noteFreq octave (scaleAt phrygian cursor))
        (2 + r 3%N * 2) triangle 0.03 bus ++
      (if harmony
       then noteCalls (nextNode w + 2) (currentTime w)
              (noteFreq octave (scaleAt phrygian (Z.rem (cursor + 2) 7)))
              1.5 sine 0.02 bus
       else []) /\
    nextNode w' = ((if harmony then 4 else 2) + nextNode w)%nat /\
    currentTime w' = currentTime w /\
    rand w' = rand w /\
    drawn w' = (drawn w + 5)%N.
Proof.
  world_fields w. intros -> -> Hbus.
  js_all. rewrite Hbus. js_all.
  replace (N.succ (N.succ (N.succ (N.succ (N.succ used))))) with (used + 5)%N
    by lia.
  replace (N.succ (N.succ (N.succ (N.succ used)))) with (used + 4)%N by lia.
  replace (N.succ (N.succ (N.succ used))) with (used + 3)%N by lia.
  replace (N.succ (N.succ used)) with (used + 2)%N by lia.
  replace (N.succ used) with (used + 1)%N by lia.
  rewrite ?N.add_0_r.
  change (Z.of_nat (length phrygian)) with 7.
  destruct (Qgtb (rnd (used + 4)%N) 0.6).
  - js_all. rewrite Hbus. js_all.
    eexists; split; [reflexivity |]. js_all.
    repeat split. by js_calls.
  - eexists; split; [reflexivity |]. js_all.
    repeat split. by js_calls.
Qed.

Lemma Qgtb_lt x y : Qgtb x y = true <-> (y < x)%Q.
Proof.
  unfold Qgtb. rewrite negb_true_iff, <- not_true_iff_false, Qle_bool_iff.
  split; [apply Qnot_le_lt | apply Qlt_not_le].
Qed.

Lemma phrygian_degree i : 0 <= i <= 6 -> is_Some (scaleAt phrygian i).
Proof.
  intros Hi.
  assert (i = 0 \/ i = 1 \/ i = 2 \/ i = 3 \/ i = 4 \/ i = 5 \/ i = 6)
    as [-> | [-> | [-> | [-> | [-> | [-> | ->]]]]]] by lia;
    by eexists.
Qed.

(** C6.  A melody tick of a playing engine plays the main note (triangle,
    2 to 4 s, gain 0.03) at the advanced cursor and, exactly when the fifth
    random number of the tick exceeds 0.6 (an interval of length 0.4 of the
    unit interval), a harmony note at scale degree (cursor + 2) mod 7: sine,
    1.5 s, gain 0.02, on the same music bus. *)
Theorem melody_tick_harmony id ms cell w ac bus i :
  timers w !! id = Some {| callback := playMelodyNoteCb cell; delay := ms |} ->
  audioContext (this w) = Some ac ->
  isMusicPlaying (this w) = true ->
  musicGain (this w) = Some bus ->
  melodyCells w !! cell = Some i ->
  (forall k, (0 <= rand w k)%Q /\ (rand w k < 1)%Q) ->
  let r k := rand w (drawn w + k)%N in
  let cursor := advanceCursor 7 i (directionOf (r 0%N)) (stepOf (r 1%N)) in
  let octave := octaveOf (r 2%N) in
  let duration := (2 + r 3%N * 2)%Q in
  let main :=
    noteCalls (nextNode w) (currentTime w)
      (noteFreq octave (scaleAt phrygian cursor)) duration triangle 0.03 bus in
  let harmony :=
    noteCalls (nextNode w + 2) (currentTime w)
      (noteFreq octave (scaleAt phrygian ((cursor + 2) mod 7)))
      1.5 sine 0.02 bus in
  exists w',
    exec (Tick id) w = Ok tt w' /\
    melodyCells w' !! cell = Some cursor /\
    emitted w w' = (if Qgtb (r 4%N) 0.6 then main ++ harmony else main) /\
    (Qgtb (r 4%N) 0.6 = true <-> (0.6 < r 4%N)%Q) /\
    (1 - 0.6 == 0.4)%Q /\
    is_Some (scaleAt phrygian ((cursor + 2) mod 7)) /\
    (2 <= duration)%Q /\ (duration < 4)%Q /\ (1.5 < 2)%Q /\ (0.02 < 0.03)%Q.
Proof.
  intros Htimer Hctx Hplaying Hmusic Hcell Hrand. cbv beta zeta.
  assert (Hbus : orElse (musicGain (this w)) (masterGain (this w)) = Some bus)
    by (by rewrite Hmusic).
  destruct (playMelodyNote_run cell w ac bus Hctx Hplaying Hbus)
    as (w' & Hrun & _ & _ & _ & Hcells & Hcalls & _).
  assert (Hlt : (cell < length (melodyCells w))%nat)
    by (eapply lookup_lt_Some; exact Hcell).
  rewrite Hcell in Hcells, Hcalls.
  cbv beta iota delta [default from_option Datatypes.id] in Hcells, Hcalls.
  rewrite list_lookup_insert_eq in Hcalls by exact Hlt.
  cbv beta iota delta [default from_option Datatypes.id] in Hcalls.
  set (cursor := advanceCursor 7 i _ _) in *.
  assert (Hcursor : 0 <= cursor <= 6) by (by apply advanceCursor_range).
  rewrite (Z.rem_mod_nonneg (cursor + 2) 7) in Hcalls by lia.
  exists w'. split; [| split; [| split; [| split; [| split; [| split]]]]].
  - unfold exec, tick, bind, get. rewrite Htimer. exact Hrun.
  - rewrite Hcells. by apply list_lookup_insert_eq.
  - unfold emitted. rewrite Hcalls, drop_app_length.
    destruct (Qgtb _ 0.6); [done | by rewrite app_nil_r].
  - apply Qgtb_lt.
  - reflexivity.
  - apply phrygian_degree. pose proof (Z.mod_pos_bound (cursor + 2) 7). lia.
  - destruct (Hrand (drawn w + 3)%N) as [H0 H1].
    set (r3 := rand w (drawn w + 3)) in *.
    assert (H2 : (0 <= r3 * 2)%Q) by (by apply Qmult_le_0_compat).
    assert (H3 : (r3 * 2 < 1 * 2)%Q) by (by apply Qmult_lt_compat_r).
    split; [| split; [| split]]; [| | done | done].
    + rewrite <- (Qplus_0_r 2) at 1. by apply Qplus_le_r.
    + change 4%Q with (2 + 1 * 2)%Q. by apply Qplus_lt_r.
Qed.

Lemma melody_tick_harmony_witness :
  exists w',
    exec (Tick 2) playingWorld = Ok tt w' /\
    melodyCells w' !! 0%nat = Some 2 /\
    emitted playingWorld w' =
      noteCalls 13 0 (Tempered (baseFreq * 2 ^ 3) 3) (2 + 0.9 * 2)
        triangle 0.03 (NodeRef 1) ++
      noteCalls 15 0 (Tempered (baseFreq * 2 ^ 3) 7) 1.5 sine 0.02
        (NodeRef 1) /\
    (Qgtb 0.9 0.6 = true <-> (0.6 < 0.9)%Q) /\
    (1 - 0.6 == 0.4)%Q /\
    is_Some (scaleAt phrygian 4) /\
    (2 <= 2 + 0.9 * 2)%Q /\ (2 + 0.9 * 2 < 4)%Q /\
    (1.5 < 2)%Q /\ (0.02 < 0.03)%Q.
Proof.
  pose proof (melody_tick_harmony 2 (3000 + 0.9 * 4000) 0 playingWorld
                {| sampleRate := 48000 |} (NodeRef 1) 0) as H.
  vm_compute in H. vm_compute. apply H; try reflexivity.
  intros k; split; [discriminate | reflexivity].
Defined.

(** ** Frames: what an event leaves alone *)

Ltac js_after := js_run; cbv beta iota delta [after]; js_all.

Lemma synth_frame e w :
  synthEvent e ->
  this (after (exec e w)) = this w /\
  timers (after (exec e w)) = timers w /\
  nextTimer (after (exec e w)) = nextTimer w.
Proof.
  destruct e as [[ac |] | | | | | f d ty v dst | d c v dst | id | dt |];
    try done; intros _; world_fields w; try (js_after; done).
  js_all. destruct (live !! id) as [[[| cell | |] ms] |]; js_after; done.
Qed.

Ltac js_or := js_all; repeat (progress unfold orElse; js_all).

Ltac forall_fresh :=
  cbn [app];
  repeat (apply List.Forall_cons; [simpl; lia |]);
  apply List.Forall_nil.

Ltac js_extends :=
  eexists; split; [reflexivity |]; unfold extends; js_all;
  split; [lia |];
  first
    [ by (exists []; rewrite app_nil_r)
    | eexists; split; [rewrite <- ?app_assoc; reflexivity |];
      forall_fresh ].

Ltac js_cases := js_or; repeat (js_branch; js_or).

Lemma synth_extends e w :
  synthEvent e ->
  (audioContext (this w) <> None ->
   is_Some (masterGain (this w)) /\ is_Some (musicGain (this w)) /\
   is_Some (sfxGain (this w))) ->
  exists w', exec e w = Ok tt w' /\ extends w w'.
Proof.
  destruct e as [[ac |] | | | | | f d ty v dst | d c v dst | id | dt |];
    try done; intros _ Hgains.
  all: destruct (audioContext (this w)) as [ac |] eqn:Hctx;
    [ destruct Hgains as ([m Hm] & [mu Hmu] & [sf Hsf]); [done |]
    | clear Hgains ].
  all: world_fields w; subst.
  all: try (js_cases; by js_extends).
  all: js_all; destruct (live !! id) as [[[| cell | |] ms] |];
    js_cases; by js_extends.
Qed.

(** ** The invariant *)

Lemma dom_clear_all (ids : list Z) : forall live : gmap Z Timer,
  dom (foldl (fun m id => delete id m) live ids) = dom live ∖ list_to_set ids.
Proof.
  induction ids as [| id ids IH]; intros live; simpl.
  - by rewrite difference_empty_L.
  - by rewrite IH, dom_delete_L, difference_difference_l_L.
Qed.

Lemma lookup_clear_all (ids : list Z) h t : forall live : gmap Z Timer,
  foldl (fun m id => delete id m) live ids !! h = Some t -> live !! h = Some t.
Proof.
  induction ids as [| id ids IH]; intros live; simpl; [done |].
  intros H. apply IH in H. by apply lookup_delete_Some in H as [_ H].
Qed.

Lemma droneCalls_fresh n now rate first bus :
  Forall (fun c => (n <= subject c < 10 + n)%nat)
    (droneCalls n now rate first bus).
Proof.
  unfold droneCalls, noteCalls, noiseCalls.
  repeat (apply Forall_app; split); forall_fresh.
Qed.

Lemma Inv_constructor cfg rnd : Inv (configured cfg rnd).
Proof.
  by split.
Qed.

Lemma initAudioContext_present device w ac :
  audioContext (this w) = Some ac -> initAudioContext device w = Ok tt w.
Proof. world_fields w. by intros ->. Qed.

Lemma Inv_wired w ac :
  Inv w -> audioContext (this w) = None -> Inv (wired ac w).
Proof.
  intros [Hh Hl Hr Hs Hd Hg] Hctx. rewrite Hctx in Hg.
  destruct Hg as [Hc Hn].
  world_fields w. subst.
  split; unfold wired; js_unfold; try done.
  repeat split; [lia |]. exists []. by rewrite app_nil_r.
Qed.

Lemma Inv_synth e w w' :
  synthEvent e -> Inv w -> exec e w = Ok tt w' -> extends w w' ->
  audioContext (this w) <> None -> Inv w'.
Proof.
  intros He [Hh Hl Hr Hs Hd Hg] Hrun (Hle & cs & Hcs & Hfresh) Hctx.
  destruct (synth_frame e w He) as (Hthis & Htimers & Hhandle).
  rewrite Hrun in Hthis, Htimers, Hhandle; simpl in Hthis, Htimers, Hhandle.
  split; rewrite ?Hthis, ?Htimers, ?Hhandle; try done.
  destruct (audioContext (this w)) as [ac |]; [| done].
  destruct Hg as (Hm & Hmu & Hsf & Hn & rest & Hrest & Hold).
  repeat split; try done; [lia |].
  exists (rest ++ cs). split.
  - by rewrite Hcs, Hrest, app_assoc.
  - apply Forall_app; split.
    + eapply Forall_impl; [exact Hold |]. simpl. lia.
    + eapply Forall_impl; [exact Hfresh |]. simpl. lia.
Qed.

Lemma Inv_start w :
  Inv w -> exists w', startBackgroundMusic w = Ok tt w' /\ Inv w'.
Proof.
  intros HI.
  destruct (isMusicPlaying (this w)) eqn:Hplaying.
  { exists w. by rewrite startBackgroundMusic_playing. }
  destruct (audioContext (this w)) as [ac |] eqn:Hctx.
  2: { exists w. by rewrite startBackgroundMusic_disabled. }
  destruct HI as [Hh Hl Hr Hs Hd Hg].
  rewrite Hctx in Hg.
  destruct Hg as (Hm & Hmu & Hsf & Hn & rest & Hrest & Hold).
  destruct (Hs Hplaying) as [Hambient Hmelody].
  assert (Hbus : orElse (musicGain (this w)) (masterGain (this w))
                 = Some (NodeRef 1)) by (by rewrite Hmu).
  destruct (startBackgroundMusic_run w ac (NodeRef 1) Hctx Hplaying Hbus)
    as (w' & Hrun & Hthis & Htimers & Hhandle & _ & Hcalls & Hnode & _).
  exists w'. split; [exact Hrun |].
  assert (Hempty : dom (timers w) = ∅).
  { rewrite Hr. unfold recorded. rewrite Hambient, Hmelody. set_solver. }
  split.
  - lia.
  - intros id. rewrite Htimers, Hhandle, !dom_insert_L, Hempty.
    set_unfold. lia.
  - rewrite Htimers, Hthis, !dom_insert_L, Hempty. unfold recorded; simpl.
    rewrite Hambient. set_solver.
  - by rewrite Hthis.
  - intros id t. rewrite Htimers, !lookup_insert_Some.
    intros [[_ <-] | [_ [[_ <-] | [_ [[_ <-] | [_ [[_ <-] | [_ H]]]]]]]];
      try done.
    by eapply Hd.
  - rewrite Hthis; simpl. rewrite Hctx.
    repeat split; try done; [lia |].
    exists (rest ++ droneCalls (nextNode w) (currentTime w) (sampleRate ac)
                      (drawn w) (NodeRef 1)).
    split; [by rewrite Hcalls, Hrest, <- app_assoc |].
    rewrite Hnode. apply Forall_app; split.
    + eapply Forall_impl; [exact Hold |]. simpl. lia.
    + eapply Forall_impl; [apply droneCalls_fresh |]. simpl. lia.
Qed.

Lemma Inv_stop w :
  Inv w ->
  exists w',
    stopBackgroundMusic w = Ok tt w' /\ Inv w' /\
    timers w' = ∅ /\ isMusicPlaying (this w') = false /\
    musicInterval (this w') = None /\ ambientIntervals (this w') = [] /\
    audioContext (this w') = audioContext (this w).
Proof.
  intros [Hh Hl Hr Hs Hd Hg].
  eexists; split; [apply stopBackgroundMusic_run |].
  world_fields w. unfold recorded in Hr; cbn in Hr.
  assert (Htruthy : forall id, melody = Some id -> truthy (Some id) = true).
  { intros id ->.
    assert (Hid : id ∈ dom live) by (rewrite Hr; set_solver).
    apply Hl in Hid. simpl.
    destruct (Z.eqb_spec id 0) as [-> | _]; [lia | done]. }
  assert (Hmelody : (if truthy melody then None else melody) = None).
  { destruct melody as [id |]; [| done]. by rewrite (Htruthy id). }
  assert (Htimers :
    match melody with
    | Some id =>
        if truthy (Some id)
        then delete id (foldl (fun m id => delete id m) live ambient)
        else foldl (fun m id => delete id m) live ambient
    | None => foldl (fun m id => delete id m) live ambient
    end = ∅).
  { apply dom_empty_iff_L.
    destruct melody as [id |].
    - rewrite (Htruthy id eq_refl).
      rewrite dom_delete_L, dom_clear_all, Hr. set_solver.
    - rewrite dom_clear_all, Hr. set_solver. }
  clear Htruthy.
  js_unfold. rewrite Hmelody, Htimers.
  split; [| done].
  split; try done.
Qed.

Lemma Inv_gains w :
  Inv w ->
  audioContext (this w) <> None ->
  is_Some (masterGain (this w)) /\ is_Some (musicGain (this w)) /\
  is_Some (sfxGain (this w)).
Proof.
  intros [_ _ _ _ _ Hg] Hctx.
  destruct (audioContext (this w)); [| done].
  destruct Hg as (-> & -> & -> & _). by repeat split.
Qed.

Lemma Inv_step_synth e w :
  synthEvent e -> Inv w -> exists w', exec e w = Ok tt w' /\ Inv w'.
Proof.
  intros He HI.
  destruct (audioContext (this w)) as [ac |] eqn:Hctx.
  - destruct (synth_extends e w He (Inv_gains w HI)) as (w' & Hrun & Hext).
    exists w'. split; [exact Hrun |].
    eapply Inv_synth; eauto. by rewrite Hctx.
  - assert (Hden : deviceDenied e)
      by (by destruct e as [[?|]| | | | | | | | |]).
    destruct (disabled_step e w Hctx Hden) as (w' & Hrun & Hctx' & Hc & Hn).
    exists w'. split; [exact Hrun |].
    destruct (synth_frame e w He) as (Hthis & Htimers & Hhandle).
    rewrite Hrun in Hthis, Htimers, Hhandle.
    simpl in Hthis, Htimers, Hhandle.
    destruct HI as [Hh Hl Hr Hs Hd Hg].
    split; rewrite ?Hthis, ?Htimers, ?Hhandle; try done.
    rewrite Hctx in *. by rewrite Hc, Hn.
Qed.

Lemma Inv_step e w :
  Inv w -> exists w', exec e w = Ok tt w' /\ Inv w'.
Proof.
  intros HI.
  destruct e as [[ac |] | | | | | f d ty v dst | d c v dst | id | dt |];
    try (by apply Inv_step_synth).
  - (* the first gesture, device available *)
    destruct (audioContext (this w)) as [ac' |] eqn:Hctx.
    { exists w. split; [by eapply initAudioContext_present | done]. }
    simpl. rewrite initAudioContext_run by done.
    destruct (Inv_start (wired ac w) (Inv_wired w ac HI Hctx))
      as (w' & Hrun & HI').
    exists w'. unfold try_catch. by rewrite Hrun.
  - (* the first gesture, device refused *)
    exists w. split; [| done].
    destruct (audioContext (this w)) as [ac' |] eqn:Hctx.
    + by eapply initAudioContext_present.
    + by apply initAudioContext_denied.
  - by apply Inv_start.
  - destruct (Inv_stop w HI) as (w' & Hrun & HI' & _). by exists w'.
  - eexists; split; [reflexivity |].
    destruct HI as [Hh Hl Hr Hs Hd Hg]. world_fields w.
    split; js_unfold; try done; [lia |].
    intros id Hid. apply Hl in Hid. lia.
Qed.

Lemma Inv_run es : forall w,
  Inv w -> exists w', run es w = Ok tt w' /\ Inv w'.
Proof.
  induction es as [| e es IH]; intros w HI.
  - by exists w.
  - destruct (Inv_step e w HI) as (w1 & Hrun1 & HI1).
    destruct (IH w1 HI1) as (w2 & Hrun2 & HI2).
    exists w2. simpl. unfold bind. by rewrite Hrun1.
Qed.

(** ** PlaybackController: stop *)

Lemma tick_cleared id w : timers w !! id = None -> tick id w = Ok tt w.
Proof. intros H. unfold tick, bind, get. by rewrite H. Qed.

Lemma reached_Inv cfg rnd history w :
  run history (configured cfg rnd) = Ok tt w -> Inv w.
Proof.
  intros Hrun.
  destruct (Inv_run history _ (Inv_constructor cfg rnd)) as (w' & Hrun' & HI).
  congruence.
Qed.

Lemma stopped_step e w :
  Inv w -> timers w = ∅ -> staysStopped (initialised w) e ->
  exists w', exec e w = Ok tt w' /\ Inv w' /\ timers w' = ∅ /\
             initialised w' = initialised w /\
             match e with Tick _ => w' = w | _ => True end.
Proof.
  intros HI Hnone He.
  assert (Hsynth : synthEvent e ->
            exists w', exec e w = Ok tt w' /\ Inv w' /\ timers w' = ∅ /\
                       initialised w' = initialised w).
  { intros Hs. destruct (Inv_step e w HI) as (w' & Hrun & HI').
    exists w'. split; [done | split; [done |]].
    destruct (synth_frame e w Hs) as (Hthis & Ht & _).
    rewrite Hrun in Hthis, Ht. cbn [after] in Hthis, Ht.
    unfold initialised. by rewrite Ht, Hthis. }
  destruct e as [[ac |] | | | | | f d ty v dst | d c v dst | id | dt |];
    try done;
    try (destruct (Hsynth I) as (w' & ? & ? & ? & ?); by exists w').
  - exists w. split; [| done]. simpl.
    unfold staysStopped, initialised in He.
    destruct (audioContext (this w)) eqn:Hctx; [| done].
    by eapply initAudioContext_present.
  - exists w. split; [| done]. simpl.
    destruct (audioContext (this w)) eqn:Hctx.
    + by eapply initAudioContext_present.
    + by apply initAudioContext_denied.
  - destruct (Inv_stop w HI)
      as (w' & Hrun & HI' & Hnone' & _ & _ & _ & Hctx).
    exists w'. unfold initialised. by rewrite Hctx.
  - exists w. split; [| done].
    apply tick_cleared. by rewrite Hnone.
  - destruct (Inv_step ForeignTimer w HI) as (w' & Hrun & HI').
    exists w'. split; [done | split; [done |]].
    simpl in Hrun. injection Hrun as <-. by destruct w.
Qed.

Lemma stopped_run es : forall w,
  Inv w -> timers w = ∅ -> Forall (staysStopped (initialised w)) es ->
  exists w', run es w = Ok tt w' /\ timers w' = ∅ /\ tickCalls es w = [].
Proof.
  induction es as [| e es IH]; intros w HI Hnone Hes.
  - by exists w.
  - inversion Hes as [| ? ? He Hes']; subst.
    destruct (stopped_step e w HI Hnone He)
      as (w1 & Hrun & HI1 & Hnone1 & Hinit & Hq).
    rewrite <- Hinit in Hes'.
    destruct (IH w1 HI1 Hnone1 Hes') as (w2 & Hrun2 & Hnone2 & Hcalls).
    exists w2. simpl. unfold bind. rewrite Hrun. simpl.
    repeat split; [done | done |].
    rewrite Hcalls, app_nil_r.
    destruct e; try done. subst w1. apply emitted_refl.
Qed.

(** C1.  In any world [w] the engine can reach, [stopBackgroundMusic]
    returns with the playing flag cleared, every recorded handle cancelled
    ([musicInterval] null, [ambientIntervals] empty) and no interval timer
    left alive.  Whatever happens afterwards, short of starting the music
    again (a call of [startBackgroundMusic], or the gesture that initialises
    an engine that was not initialised yet), no timer is alive and the
    drone, melody, wind and creak generators make no device call. *)
Theorem stop_silences_generators cfg rnd history w later :
  run history (configured cfg rnd) = Ok tt w ->
  Forall (staysStopped (initialised w)) later ->
  exists w1 w2,
    stopBackgroundMusic w = Ok tt w1 /\
    isMusicPlaying (this w1) = false /\
    musicInterval (this w1) = None /\
    ambientIntervals (this w1) = [] /\
    timers w1 = ∅ /\
    run later w1 = Ok tt w2 /\
    timers w2 = ∅ /\
    tickCalls later w1 = [].
Proof.
  intros Hrun Hlater.
  pose proof (reached_Inv _ _ _ _ Hrun) as HI.
  destruct (Inv_stop w HI)
    as (w1 & Hstop & HI1 & Hnone & Hplaying & Hmelody & Hambient & Hctx).
  assert (Hinit : initialised w1 = initialised w)
    by (unfold initialised; by rewrite Hctx).
  rewrite <- Hinit in Hlater.
  destruct (stopped_run later w1 HI1 Hnone Hlater)
    as (w2 & Hrun2 & Hnone2 & Hcalls).
  by exists w1, w2.
Qed.

Lemma stop_silences_generators_witness :
  exists w1 w2,
    stopBackgroundMusic playingWorld = Ok tt w1 /\
    isMusicPlaying (this w1) = false /\
    musicInterval (this w1) = None /\
    ambientIntervals (this w1) = [] /\
    timers w1 = ∅ /\
    run [ Tick 1; Tick 2; Elapse 20; Tick 3; Tick 4; CallHover;
          Gesture (Some {| sampleRate := 48000 |}); Tick 1 ] w1
    = Ok tt w2 /\
    timers w2 = ∅ /\
    tickCalls [ Tick 1; Tick 2; Elapse 20; Tick 3; Tick 4; CallHover;
                Gesture (Some {| sampleRate := 48000 |}); Tick 1 ] w1 = [].
Proof.
  apply (stop_silences_generators defaultConfig (fun _ => 0.9%Q)
           [Gesture (Some {| sampleRate := 48000 |})] playingWorld
           [ Tick 1; Tick 2; Elapse 20; Tick 3; Tick 4; CallHover;
             Gesture (Some {| sampleRate := 48000 |}); Tick 1 ]).
  - vm_compute. reflexivity.
  - repeat constructor.
Defined.

(** ** DroneGenerator *)

Lemma Inv_music w ac :
  Inv w -> audioContext (this w) = Some ac ->
  musicGain (this w) = Some (NodeRef 1).
Proof.
  intros [_ _ _ _ _ Hg] Hctx. rewrite Hctx in Hg. by destruct Hg as (_ & ? & _).
Qed.

(** C7.  [initialize(); start()]: the gesture builds the gain chain and
    starts the music, so the later [start] changes nothing; the device log
    then holds the gain chain followed by one drone chord sounding at time
    0, and timer 1 fires the drone every 7500 ms.  In every world the
    engine reaches, a drone timer has period 7500 ms and each of its
    firings emits exactly one chord of four sources starting together:
    73.42 Hz sine at gain 0.04, 73.42 * 1.5 Hz sine at 0.025, 73.42 * 2 Hz
    triangle at 0.015 and 8 s of noise low-passed at 100 Hz, all lasting
    8 s, longer than the period. *)
Theorem drone_chord cfg rnd ac history :
  let chord n t first :=
    noteCalls n t (Hz 73.42) 8 sine 0.04 (NodeRef 1) ++
    noteCalls (n + 2) t (Hz (73.42 * 1.5)) 8 sine 0.025 (NodeRef 1) ++
    noteCalls (n + 4) t (Hz (73.42 * 2)) 8 triangle 0.015 (NodeRef 1) ++
    noiseCalls (n + 6) t (sampleRate ac) first 8 100 0.02 (NodeRef 1) in
  (exists w1,
     exec (Gesture (Some ac)) (configured cfg rnd) = Ok tt w1 /\
     exec CallStart w1 = Ok tt w1 /\
     calls w1 = graphCalls cfg ++ chord 3%nat 0%Q 0%N /\
     started (calls w1) = [(3, 0%Q); (5, 0%Q); (7, 0%Q); (10, 0%Q)]%nat /\
     timers w1 !! 1 = Some {| callback := playDroneCb; delay := 7500 |}) /\
  (forall w id t,
     run history (configured cfg rnd) = Ok tt w ->
     audioContext (this w) = Some ac ->
     timers w !! id = Some t -> callback t = playDroneCb ->
     delay t = 7500%Q /\
     exists w',
       exec (Tick id) w = Ok tt w' /\
       emitted w w' = chord (nextNode w) (currentTime w) (drawn w) /\
       started (emitted w w')
       = [ (nextNode w, currentTime w); (nextNode w + 2, currentTime w);
           (nextNode w + 4, currentTime w);
           (nextNode w + 6 + 1, currentTime w) ]%nat) /\
  (7500 < 8 * 1000)%Q /\ (0.025 < 0.04)%Q /\ (0.015 < 0.025)%Q.
Proof.
  intros chord. split; [| split; [| done]].
  - pose (w0 := wired ac (configured cfg rnd)).
    destruct (startBackgroundMusic_run w0 ac (NodeRef 1) eq_refl eq_refl
                eq_refl)
      as (w1 & Hrun & Hthis & Htimers & _ & _ & Hcalls & _).
    exists w1. split; [| split; [| split; [| split]]].
    + simpl. rewrite initAudioContext_run by done.
      unfold try_catch. fold w0. by rewrite Hrun.
    + apply startBackgroundMusic_playing. by rewrite Hthis.
    + exact Hcalls.
    + by rewrite Hcalls.
    + rewrite Htimers. change (nextTimer w0) with 1.
      rewrite !lookup_insert_ne by lia. apply lookup_insert_eq.
  - intros w id [cb ms] Hrun Hctx Htimer Hcb. simpl in Hcb. subst cb.
    pose proof (reached_Inv _ _ _ _ Hrun) as HI.
    split; [exact (inv_delays w HI id _ Htimer) |].
    assert (Hbus : orElse (musicGain (this w)) (masterGain (this w))
                   = Some (NodeRef 1))
      by (by rewrite (Inv_music w ac HI Hctx)).
    eexists. split; [| split].
    + unfold exec, tick, bind, get. rewrite Htimer.
      exact (playDrone_run w ac (NodeRef 1) Hctx Hbus).
    + by rewrite emitted_set_drawn, emitted_creating.
    + by rewrite emitted_set_drawn, emitted_creating.
Qed.

Lemma drone_chord_witness :
  delay {| callback := playDroneCb; delay := 7500 |} = 7500%Q /\
  exists w',
    exec (Tick 1) playingWorld = Ok tt w' /\
    emitted playingWorld w' =
      noteCalls 13 0 (Hz 73.42) 8 sine 0.04 (NodeRef 1) ++
      noteCalls 15 0 (Hz (73.42 * 1.5)) 8 sine 0.025 (NodeRef 1) ++
      noteCalls 17 0 (Hz (73.42 * 2)) 8 triangle 0.015 (NodeRef 1) ++
      noiseCalls 19 0 48000 384001 8 100 0.02 (NodeRef 1) /\
    started (emitted playingWorld w')
    = [(13, 0%Q); (15, 0%Q); (17, 0%Q); (20, 0%Q)]%nat.
Proof.
  pose proof (drone_chord defaultConfig (fun _ => 0.9%Q)
                {| sampleRate := 48000 |}
                [Gesture (Some {| sampleRate := 48000 |})]) as H.
  destruct H as (_ & H & _).
  specialize (H playingWorld 1 {| callback := playDroneCb; delay := 7500 |}).
  vm_compute in H. vm_compute. apply H; reflexivity.
Defined.

(** ** MelodyGenerator: the period *)

Lemma startMelody_run w ac :
  audioContext (this w) = Some ac ->
  exists w',
    startMelody w = Ok tt w' /\
    timers w' =
      <[nextTimer w :=
          {| callback := playMelodyNoteCb (length (melodyCells w));
             delay := 3000 + rand w (drawn w) * 4000 |}]> (timers w) /\
    musicInterval (this w') = Some (nextTimer w) /\
    drawn w' = N.succ (drawn w).
Proof.
  world_fields w. intros ->. js_all.
  eexists; split; [reflexivity |]. by js_all.
Qed.

Lemma start_keeps w w' :
  Inv w -> startBackgroundMusic w = Ok tt w' ->
  nextTimer w <= nextTimer w' /\
  forall id, id < nextTimer w -> timers w' !! id = timers w !! id.
Proof.
  intros HI Hrun.
  destruct (isMusicPlaying (this w)) eqn:Hplaying.
  { rewrite startBackgroundMusic_playing in Hrun by done.
    injection Hrun as <-. split; [lia | done]. }
  destruct (audioContext (this w)) as [ac |] eqn:Hctx.
  2: { rewrite startBackgroundMusic_disabled in Hrun by done.
       injection Hrun as <-. split; [lia | done]. }
  assert (Hbus : orElse (musicGain (this w)) (masterGain (this w))
                 = Some (NodeRef 1))
    by (by rewrite (Inv_music w ac HI Hctx)).
  destruct (startBackgroundMusic_run w ac (NodeRef 1) Hctx Hplaying Hbus)
    as (w1 & Hrun1 & _ & Htimers & Hhandle & _).
  rewrite Hrun in Hrun1. injection Hrun1 as <-.
  split; [lia |].
  intros id Hid. rewrite Htimers. by rewrite !lookup_insert_ne by lia.
Qed.

Lemma keeps_step e w w' id :
  Inv w -> id < nextTimer w -> exec e w = Ok tt w' ->
  nextTimer w <= nextTimer w' /\
  forall t, timers w' !! id = Some t -> timers w !! id = Some t.
Proof.
  intros HI Hid Hrun.
  assert (Hsynth : synthEvent e ->
            nextTimer w <= nextTimer w' /\
            forall t, timers w' !! id = Some t -> timers w !! id = Some t).
  { intros Hs. destruct (synth_frame e w Hs) as (_ & Ht & Hh).
    rewrite Hrun in Ht, Hh. cbn [after] in Ht, Hh.
    rewrite Ht, Hh. split; [lia | done]. }
  destruct e as [[ac |] | | | | | f d ty v dst | d c v dst | id' | dt |];
    try (by apply Hsynth).
  - simpl in Hrun. destruct (audioContext (this w)) as [ac' |] eqn:Hctx.
    { rewrite (initAudioContext_present _ w ac' Hctx) in Hrun.
      injection Hrun as <-. split; [lia | done]. }
    rewrite initAudioContext_run in Hrun by done.
    destruct (Inv_start (wired ac w) (Inv_wired w ac HI Hctx))
      as (w1 & Hrun1 & _).
    unfold try_catch in Hrun. rewrite Hrun1 in Hrun. injection Hrun as <-.
    destruct (start_keeps (wired ac w) w1 (Inv_wired w ac HI Hctx) Hrun1)
      as [Hle Hsame].
    split; [exact Hle |]. intros t. by rewrite (Hsame id Hid).
  - simpl in Hrun. destruct (audioContext (this w)) as [ac' |] eqn:Hctx.
    + rewrite (initAudioContext_present _ w ac' Hctx) in Hrun.
      injection Hrun as <-. split; [lia | done].
    + rewrite (initAudioContext_denied w Hctx) in Hrun.
      injection Hrun as <-. split; [lia | done].
  - destruct (start_keeps w w' HI Hrun) as [Hle Hsame].
    split; [exact Hle |]. intros t. by rewrite (Hsame id Hid).
  - simpl in Hrun. rewrite stopBackgroundMusic_run in Hrun.
    injection Hrun as <-. world_fields w. js_unfold.
    split; [lia |]. intros t.
    intros H. destruct melody as [h |]; [| by apply lookup_clear_all in H].
    match type of H with context [if ?c then _ else _] => destruct c end;
      try apply lookup_delete_Some in H as [_ H];
      by apply lookup_clear_all in H.
  - simpl in Hrun. injection Hrun as <-. world_fields w. js_unfold.
    split; [lia | done].
Qed.

Lemma keeps_run es id : forall w w',
  Inv w -> id < nextTimer w -> run es w = Ok tt w' ->
  forall t, timers w' !! id = Some t -> timers w !! id = Some t.
Proof.
  induction es as [| e es IH]; intros w w' HI Hid Hrun t Ht.
  - simpl in Hrun. injection Hrun as <-. exact Ht.
  - simpl in Hrun. unfold bind in Hrun.
    destruct (Inv_step e w HI) as (w1 & Hrun1 & HI1).
    rewrite Hrun1 in Hrun.
    destruct (keeps_step e w w1 id HI Hid Hrun1) as [Hle Hback].
    apply Hback. eapply IH; eauto. lia.
Qed.

(** ** MixBus *)

Section Latest.
Context {A : Type} (sel : DeviceCall -> option A).

Lemma latest_app l1 l2 :
  latest sel (l1 ++ l2)
  = match latest sel l2 with Some x => Some x | None => latest sel l1 end.
Proof. unfold latest. by rewrite omap_app, last_app. Qed.

Lemma latest_none l :
  Forall (fun c => sel c = None) l -> latest sel l = None.
Proof.
  unfold latest. induction 1 as [| c l Hc _ IH]; [done |].
  simpl. by rewrite Hc.
Qed.
End Latest.

Lemma gainSel_other n c : subject c <> n -> gainSel n c = None.
Proof. destruct c; simpl; intros H; try done; by case_decide. Qed.

Lemma outSel_other n c : subject c <> n -> outSel n c = None.
Proof. destruct c; simpl; intros H; try done; by case_decide. Qed.

Lemma latest_gain_other n l :
  Forall (fun c => subject c <> n) l -> latest (gainSel n) l = None.
Proof.
  intros H. apply latest_none. eapply Forall_impl; [exact H |].
  apply gainSel_other.
Qed.

Lemma latest_out_other n l :
  Forall (fun c => subject c <> n) l -> latest (outSel n) l = None.
Proof.
  intros H. apply latest_none. eapply Forall_impl; [exact H |].
  apply outSel_other.
Qed.

Ltac decide_nat :=
  repeat match goal with
         | |- context [decide (?a = ?b)] =>
             destruct (decide (a = b)); try lia
         end.

(** In the log of a note played on bus [b] (1 or 2) of the gain chain. *)
Lemma note_path cfg rest osc now freq duration type peak (b : nat) volume :
  (3 <= osc)%nat ->
  Forall (fun c => (3 <= subject c < osc)%nat) rest ->
  (b = 1%nat /\ volume = musicVolume cfg) \/
  (b = 2%nat /\ volume = sfxVolume cfg) ->
  pathGain 4
    ((graphCalls cfg ++ rest) ++
     noteCalls osc now freq duration type peak (NodeRef b))
    (NodeRef osc)
  = Some (1 * (peak * (volume * (masterVolume cfg * 1))))%Q.
Proof.
  intros Hosc Hrest Hbus.
  set (block := noteCalls osc now freq duration type peak (NodeRef b)).
  set (log := (graphCalls cfg ++ rest) ++ block).
  assert (Hold : forall n, (osc <= n)%nat ->
            Forall (fun c => subject c <> n) (graphCalls cfg ++ rest)).
  { intros n Hn. apply Forall_app; split.
    - unfold graphCalls. repeat (constructor; [simpl; lia |]). constructor.
    - eapply Forall_impl; [exact Hrest |]. simpl. lia. }
  assert (Hnew : forall n, (n < 3)%nat ->
            Forall (fun c => subject c <> n) (rest ++ block)).
  { intros n Hn. apply Forall_app; split.
    - eapply Forall_impl; [exact Hrest |]. simpl. lia.
    - unfold block, noteCalls. repeat (constructor; [simpl; lia |]).
      constructor. }
  assert (Hlog : log = graphCalls cfg ++ (rest ++ block))
    by (unfold log; by rewrite app_assoc).
  assert (Ho_osc : outputOf log osc = Some (NodeRef (S osc))).
  { unfold outputOf, log. rewrite latest_app.
    unfold block, noteCalls, latest; simpl. by decide_nat. }
  assert (Hg_osc : gainOf log osc = 1%Q).
  { unfold gainOf, log.
    rewrite latest_app, (latest_gain_other osc _ (Hold osc (le_n _))).
    unfold block, noteCalls, latest; simpl. by decide_nat. }
  assert (Ho_env : outputOf log (S osc) = Some (NodeRef b)).
  { unfold outputOf, log. rewrite latest_app.
    unfold block, noteCalls, latest; simpl. by decide_nat. }
  assert (Hg_env : gainOf log (S osc) = peak).
  { unfold gainOf, log. rewrite latest_app.
    unfold block, noteCalls, latest; simpl. by decide_nat. }
  assert (Ho_bus : outputOf log b = Some (NodeRef 0)).
  { unfold outputOf. rewrite Hlog, latest_app.
    rewrite (latest_out_other b) by (apply Hnew; lia).
    by destruct Hbus as [[-> _] | [-> _]]. }
  assert (Hg_bus : gainOf log b = volume).
  { unfold gainOf. rewrite Hlog, latest_app.
    rewrite (latest_gain_other b) by (apply Hnew; lia).
    by destruct Hbus as [[-> ->] | [-> ->]]. }
  assert (Ho_master : outputOf log 0 = Some Destination).
  { unfold outputOf. rewrite Hlog, latest_app.
    by rewrite (latest_out_other 0%nat) by (apply Hnew; lia). }
  assert (Hg_master : gainOf log 0 = masterVolume cfg).
  { unfold gainOf. rewrite Hlog, latest_app.
    by rewrite (latest_gain_other 0%nat) by (apply Hnew; lia). }
  cbn [pathGain].
  by rewrite Ho_osc, Ho_env, Ho_bus, Ho_master, Hg_osc, Hg_env, Hg_bus,
    Hg_master.
Qed.

Lemma start_config w w' :
  Inv w -> startBackgroundMusic w = Ok tt w' ->
  config (this w') = config (this w).
Proof.
  intros HI Hrun.
  destruct (isMusicPlaying (this w)) eqn:Hplaying.
  { rewrite startBackgroundMusic_playing in Hrun by done. congruence. }
  destruct (audioContext (this w)) as [ac |] eqn:Hctx.
  2: { rewrite startBackgroundMusic_disabled in Hrun by done. congruence. }
  assert (Hbus : orElse (musicGain (this w)) (masterGain (this w))
                 = Some (NodeRef 1))
    by (by rewrite (Inv_music w ac HI Hctx)).
  destruct (startBackgroundMusic_run w ac (NodeRef 1) Hctx Hplaying Hbus)
    as (w1 & Hrun1 & Hthis & _).
  rewrite Hrun in Hrun1. injection Hrun1 as <-. by rewrite Hthis.
Qed.

Lemma config_step e w w' :
  Inv w -> exec e w = Ok tt w' -> config (this w') = config (this w).
Proof.
  intros HI Hrun.
  assert (Hsynth : synthEvent e -> config (this w') = config (this w)).
  { intros Hs. destruct (synth_frame e w Hs) as (Ht & _).
    rewrite Hrun in Ht. cbn [after] in Ht. by rewrite Ht. }
  destruct e as [[ac |] | | | | | f d ty v dst | d c v dst | id | dt |];
    try (by apply Hsynth).
  - simpl in Hrun. destruct (audioContext (this w)) as [ac' |] eqn:Hctx.
    { rewrite (initAudioContext_present _ w ac' Hctx) in Hrun. congruence. }
    rewrite initAudioContext_run in Hrun by done.
    destruct (Inv_start (wired ac w) (Inv_wired w ac HI Hctx))
      as (w1 & Hrun1 & _).
    unfold try_catch in Hrun. rewrite Hrun1 in Hrun. injection Hrun as <-.
    rewrite (start_config _ _ (Inv_wired w ac HI Hctx) Hrun1).
    by destruct w as [[]].
  - simpl in Hrun. destruct (audioContext (this w)) as [ac' |] eqn:Hctx.
    + rewrite (initAudioContext_present _ w ac' Hctx) in Hrun. congruence.
    + rewrite (initAudioContext_denied w Hctx) in Hrun. congruence.
  - by apply start_config.
  - simpl in Hrun. rewrite stopBackgroundMusic_run in Hrun.
    injection Hrun as <-. by destruct w as [[]].
  - simpl in Hrun. injection Hrun as <-. by destruct w as [[]].
Qed.

Lemma config_run es : forall w w',
  Inv w -> run es w = Ok tt w' -> config (this w') = config (this w).
Proof.
  induction es as [| e es IH]; intros w w' HI Hrun.
  - simpl in Hrun. by injection Hrun as <-.
  - simpl in Hrun. unfold bind in Hrun.
    destruct (Inv_step e w HI) as (w1 & Hrun1 & HI1).
    rewrite Hrun1 in Hrun.
    rewrite (IH w1 w' HI1 Hrun). by apply (config_step e).
Qed.

(** C8.  The default levels are master 0.4, music 0.15, sfx 0.3.  Whatever
    the configured volumes, in any world the engine reaches after its
    initialisation a note played on the music bus, or on the sfx bus, is
    routed oscillator -> envelope -> bus -> master -> destination, and the
    product of the gains along that route is
    peak gain * bus volume * master volume. *)
Theorem note_gain_is_product
    cfg rnd history w ac freq duration type peak :
  run history (configured cfg rnd) = Ok tt w ->
  audioContext (this w) = Some ac ->
  config (this (constructor rnd)) =
    {| masterVolume := 0.4; musicVolume := 0.15; sfxVolume := 0.3 |} /\
  (exists w' g,
     playNote freq duration type peak (musicGain (this w)) w = Ok tt w' /\
     pathGain 4 (calls w') (NodeRef (nextNode w)) = Some g /\
     (g == peak * musicVolume cfg * masterVolume cfg)%Q) /\
  (exists w' g,
     playNote freq duration type peak (sfxGain (this w)) w = Ok tt w' /\
     pathGain 4 (calls w') (NodeRef (nextNode w)) = Some g /\
     (g == peak * sfxVolume cfg * masterVolume cfg)%Q).
Proof.
  intros Hrun Hctx.
  pose proof (reached_Inv _ _ _ _ Hrun) as HI.
  pose proof (config_run history _ _ (Inv_constructor cfg rnd) Hrun) as Hcfg.
  change (config (this (configured cfg rnd))) with cfg in Hcfg.
  pose proof (inv_graph w HI) as Hg. rewrite Hctx, Hcfg in Hg.
  destruct Hg as (Hm & Hmu & Hsf & Hn & rest & Hrest & Hold).
  split; [done |]. split.
  - eexists; eexists. split; [| split].
    + apply (playNote_run _ _ _ _ _ w ac (NodeRef 1)); [done |].
      by rewrite Hmu.
    + cbn [calls creating set_nextNode set_calls]. rewrite Hrest.
      apply (note_path cfg rest (nextNode w)); [done | done | by left].
    + ring.
  - eexists; eexists. split; [| split].
    + apply (playNote_run _ _ _ _ _ w ac (NodeRef 2)); [done |].
      by rewrite Hsf.
    + cbn [calls creating set_nextNode set_calls]. rewrite Hrest.
      apply (note_path cfg rest (nextNode w)); [done | done | by right].
    + ring.
Qed.

Lemma note_gain_is_product_witness :
  config (this (constructor (fun _ => 0.9%Q))) =
    {| masterVolume := 0.4; musicVolume := 0.15; sfxVolume := 0.3 |} /\
  (exists w' g,
     playNote (Hz 440) 1 sine 0.5 (musicGain (this playingWorld)) playingWorld
     = Ok tt w' /\
     pathGain 4 (calls w') (NodeRef 13) = Some g /\
     (g == 0.5 * 0.15 * 0.4)%Q) /\
  (exists w' g,
     playNote (Hz 440) 1 sine 0.5 (sfxGain (this playingWorld)) playingWorld
     = Ok tt w' /\
     pathGain 4 (calls w') (NodeRef 13) = Some g /\
     (g == 0.5 * 0.3 * 0.4)%Q).
Proof.
  pose proof (note_gain_is_product defaultConfig (fun _ => 0.9%Q)
                [Gesture (Some {| sampleRate := 48000 |})] playingWorld
                {| sampleRate := 48000 |} (Hz 440) 1 sine 0.5) as H.
  vm_compute in H. vm_compute. apply H; reflexivity.
Defined.

(** ** MelodyGenerator: the cursor of the running engine *)

Lemma synth_cursors e w :
  synthEvent e -> cursorsInRange w -> cursorsInRange (after (exec e w)).
Proof.
  unfold cursorsInRange.
  destruct e as [[ac |] | | | | | f d ty v dst | d c v dst | id | dt |];
    try done; intros _ Hcells; world_fields w; try (js_after; done).
  js_all. destruct (live !! id) as [[[| cell | |] ms] |]; js_after;
    try done.
  all: apply Forall_insert; [done | by apply advanceCursor_range].
Qed.

Lemma start_cursors w w' :
  Inv w -> startBackgroundMusic w = Ok tt w' ->
  cursorsInRange w -> cursorsInRange w'.
Proof.
  intros HI Hrun Hcells.
  destruct (isMusicPlaying (this w)) eqn:Hplaying.
  { rewrite startBackgroundMusic_playing in Hrun by done. congruence. }
  destruct (audioContext (this w)) as [ac |] eqn:Hctx.
  2: { rewrite startBackgroundMusic_disabled in Hrun by done. congruence. }
  assert (Hbus : orElse (musicGain (this w)) (masterGain (this w))
                 = Some (NodeRef 1))
    by (by rewrite (Inv_music w ac HI Hctx)).
  destruct (startBackgroundMusic_run w ac (NodeRef 1) Hctx Hplaying Hbus)
    as (w1 & Hrun1 & _ & _ & _ & Hnew & _).
  rewrite Hrun in Hrun1. injection Hrun1 as <-.
  unfold cursorsInRange. rewrite Hnew.
  apply Forall_app; split; [exact Hcells |]. by constructor.
Qed.

Lemma cursors_step e w w' :
  Inv w -> exec e w = Ok tt w' -> cursorsInRange w -> cursorsInRange w'.
Proof.
  intros HI Hrun Hcells.
  assert (Hsynth : synthEvent e -> cursorsInRange w').
  { intros Hs. pose proof (synth_cursors e w Hs Hcells) as H.
    by rewrite Hrun in H. }
  destruct e as [[ac |] | | | | | f d ty v dst | d c v dst | id | dt |];
    try (by apply Hsynth).
  - simpl in Hrun. destruct (audioContext (this w)) as [ac' |] eqn:Hctx.
    { rewrite (initAudioContext_present _ w ac' Hctx) in Hrun. congruence. }
    rewrite initAudioContext_run in Hrun by done.
    destruct (Inv_start (wired ac w) (Inv_wired w ac HI Hctx))
      as (w1 & Hrun1 & _).
    unfold try_catch in Hrun. rewrite Hrun1 in Hrun. injection Hrun as <-.
    apply (start_cursors _ _ (Inv_wired w ac HI Hctx) Hrun1).
    by destruct w.
  - simpl in Hrun. destruct (audioContext (this w)) as [ac' |] eqn:Hctx.
    + rewrite (initAudioContext_present _ w ac' Hctx) in Hrun. congruence.
    + rewrite (initAudioContext_denied w Hctx) in Hrun. congruence.
  - by apply (start_cursors w).
  - simpl in Hrun. rewrite stopBackgroundMusic_run in Hrun.
    injection Hrun as <-. by destruct w.
  - simpl in Hrun. injection Hrun as <-. by destruct w.
Qed.

Lemma cursors_run es : forall w w',
  Inv w -> run es w = Ok tt w' -> cursorsInRange w -> cursorsInRange w'.
Proof.
  induction es as [| e es IH]; intros w w' HI Hrun Hcells.
  - simpl in Hrun. by injection Hrun as <-.
  - simpl in Hrun. unfold bind in Hrun.
    destruct (Inv_step e w HI) as (w1 & Hrun1 & HI1).
    rewrite Hrun1 in Hrun.
    apply (IH w1 w' HI1 Hrun). by apply (cursors_step e w).
Qed.

(** * Further properties of the engine *)

(** ** NoiseSynthesizer and the ambient effects *)

Lemma scaled_draw a k r :
  (0 < k)%Q -> (0 <= r)%Q -> (r < 1)%Q ->
  (a <= a + r * k)%Q /\ (a + r * k < a + k)%Q.
Proof.
  intros Hk H0 H1.
  assert (H2 : (0 <= r * k)%Q)
    by (apply Qmult_le_0_compat; [done | by apply Qlt_le_weak]).
  assert (H3 : (r * k < 1 * k)%Q) by (by apply Qmult_lt_compat_r).
  rewrite Qmult_1_l in H3. split.
  - rewrite <- (Qplus_0_r a) at 1. by apply Qplus_le_r.
  - by apply Qplus_lt_r.
Qed.

Lemma playCreak_run w ac bus :
  audioContext (this w) = Some ac ->
  musicGain (this w) = Some bus ->
  playCreak w =
  Ok tt (set_drawn (drawn w + 2)
           (creating 2 (creakCalls (nextNode w) (currentTime w)
                          (100 + rand w (drawn w) * 50)
                          (60 + rand w (drawn w + 1) * 30) bus) w)).
Proof.
  world_fields w. intros -> ->. js_all.
  replace (N.succ (N.succ used)) with (used + 2)%N by lia.
  replace (N.succ used) with (used + 1)%N by lia.
  unfold creakCalls. by rewrite <- !app_assoc.
Qed.

(** X1.  On an initialised device [playFilteredNoise] fills a one-channel
    buffer of [sampleRate * duration] samples with one random number per
    loop iteration, plays it through a low-pass filter at [cutoff] and an
    envelope that starts at [volume] and falls linearly to 0 at onset +
    duration, into the destination bus (the master gain when none is
    given). *)
Theorem noise_filter_and_envelope
    duration cutoff volume destination w ac master :
  audioContext (this w) = Some ac ->
  masterGain (this w) = Some master ->
  exists w',
    playFilteredNoise duration cutoff volume destination w = Ok tt w' /\
    let b := nextNode w in
    let now := currentTime w in
    let samples := Z.to_N (Qceiling (sampleRate ac * duration)) in
    emitted w w' =
      [ CreateBuffer b 1 (sampleRate ac * duration) (sampleRate ac);
        GetChannelData b 0; WriteSamples b (drawn w) samples;
        CreateBufferSource (b + 1); SetBuffer (b + 1) b;
        CreateBiquadFilter (b + 2); SetFilterType (b + 2) lowpass;
        SetFrequencyValue (b + 2) (Hz cutoff);
        CreateGain (b + 3);
        GainSetValueAtTime (b + 3) volume now;
        GainLinearRamp (b + 3) 0 (now + duration);
        Connect (b + 1) (NodeRef (b + 2)); Connect (b + 2) (NodeRef (b + 3));
        Connect (b + 3) (default master destination);
        Start (b + 1) now ] /\
    drawn w' = (drawn w + samples)%N /\
    nextNode w' = (4 + nextNode w)%nat.
Proof.
  intros Hctx Hmaster.
  assert (Hbus : orElse destination (masterGain (this w))
                 = Some (default master destination)).
  { rewrite Hmaster. by destruct destination. }
  eexists; split; [exact (playFilteredNoise_run _ _ _ _ _ _ _ Hctx Hbus) |].
  cbv zeta. by rewrite emitted_set_drawn, emitted_creating.
Qed.

Lemma noise_filter_and_envelope_witness :
  exists w',
    playFilteredNoise 5 300 0.05 None playingWorld = Ok tt w' /\
    emitted playingWorld w' =
      [ CreateBuffer 13 1 (48000 * 5) 48000;
        GetChannelData 13 0; WriteSamples 13 384001 240000;
        CreateBufferSource 14; SetBuffer 14 13;
        CreateBiquadFilter 15; SetFilterType 15 lowpass;
        SetFrequencyValue 15 (Hz 300);
        CreateGain 16;
        GainSetValueAtTime 16 0.05 0;
        GainLinearRamp 16 0 (0 + 5);
        Connect 14 (NodeRef 15); Connect 15 (NodeRef 16);
        Connect 16 (NodeRef 0);
        Start 14 0 ] /\
    drawn w' = 624001%N /\
    nextNode w' = 17%nat.
Proof.
  pose proof (noise_filter_and_envelope 5 300 0.05 None playingWorld
                {| sampleRate := 48000 |} (NodeRef 0)) as H.
  vm_compute in H. vm_compute. apply H; reflexivity.
Defined.

(** X2.  A creak is a sawtooth that starts between 100 and 150 Hz and
    slides linearly down to between 60 and 90 Hz in 0.3 s, always
    downwards, under an envelope falling from 0.03 to 0.001; it is stopped
    at onset + 0.3 s, goes to the music bus and costs two random numbers. *)
Theorem creak_slides_down w ac bus :
  audioContext (this w) = Some ac ->
  musicGain (this w) = Some bus ->
  unitOracle w ->
  let high := (100 + rand w (drawn w) * 50)%Q in
  let low := (60 + rand w (drawn w + 1) * 30)%Q in
  exists w',
    playCreak w = Ok tt w' /\
    emitted w w' = creakCalls (nextNode w) (currentTime w) high low bus /\
    stops (emitted w w') = [(nextNode w, (currentTime w + 0.3)%Q)] /\
    drawn w' = (drawn w + 2)%N /\
    this w' = this w /\ timers w' = timers w /\
    (100 <= high)%Q /\ (high < 150)%Q /\
    (60 <= low)%Q /\ (low < 90)%Q /\ (low < high)%Q.
Proof.
  intros Hctx Hmusic Hrand high low.
  destruct (Hrand (drawn w)) as [H0 H1].
  destruct (Hrand (drawn w + 1)%N) as [H0' H1'].
  destruct (scaled_draw 100 50 _ eq_refl H0 H1) as [Hh1 Hh2].
  destruct (scaled_draw 60 30 _ eq_refl H0' H1') as [Hl1 Hl2].
  eexists; split; [exact (playCreak_run w ac bus Hctx Hmusic) |].
  rewrite emitted_set_drawn, emitted_creating.
  split; [done |]. split; [done |]. split; [by destruct w |].
  split; [by destruct w |]. split; [by destruct w |].
  split; [done |]. split; [done |]. split; [done |]. split; [done |].
  eapply Qlt_trans; [exact Hl2 |]. eapply Qlt_le_trans; [| exact Hh1]. done.
Qed.

Lemma creak_slides_down_witness :
  exists w',
    playCreak playingWorld = Ok tt w' /\
    emitted playingWorld w'
    = creakCalls 13 0 (100 + 0.9 * 50) (60 + 0.9 * 30) (NodeRef 1) /\
    stops (emitted playingWorld w') = [(13%nat, (0 + 0.3)%Q)] /\
    drawn w' = 384003%N /\
    this w' = this playingWorld /\ timers w' = timers playingWorld /\
    (100 <= 100 + 0.9 * 50)%Q /\ (100 + 0.9 * 50 < 150)%Q /\
    (60 <= 60 + 0.9 * 30)%Q /\ (60 + 0.9 * 30 < 90)%Q /\
    (60 + 0.9 * 30 < 100 + 0.9 * 50)%Q.
Proof.
  pose proof (creak_slides_down playingWorld {| sampleRate := 48000 |}
                (NodeRef 1)) as H.
  vm_compute in H. vm_compute. apply H; try reflexivity.
  intros k; split; [discriminate | reflexivity].
Defined.

Lemma windTick_run w ac bus :
  audioContext (this w) = Some ac ->
  musicGain (this w) = Some bus ->
  exists w',
    windTick w = Ok tt w' /\
    this w' = this w /\ timers w' = timers w /\
    emitted w w' =
      if Qgtb (rand w (drawn w)) 0.7 && isMusicPlaying (this w)
      then noiseCalls (nextNode w) (currentTime w) (sampleRate ac)
             (drawn w + 2) (4 + rand w (drawn w + 1) * 3) 300 0.05 bus
      else [].
Proof.
  world_fields w. intros -> ->. unfold emitted. js_all.
  destruct (Qgtb (rnd used) 0.7); [destruct playing |]; js_or.
  2, 3: eexists; split; [reflexivity |]; js_all;
    by rewrite drop_all.
  eexists; split; [reflexivity |]. js_all.
  replace (N.succ (N.succ used)) with (used + 2)%N by lia.
  replace (N.succ used) with (used + 1)%N by lia.
  repeat split. rewrite <- !app_assoc, drop_app_length.
  unfold noiseCalls. cbn [app]. by rewrite !Nat.add_succ_r, Nat.add_0_r.
Qed.

Lemma creakTick_run w ac bus :
  audioContext (this w) = Some ac ->
  musicGain (this w) = Some bus ->
  exists w',
    creakTick w = Ok tt w' /\
    this w' = this w /\ timers w' = timers w /\
    emitted w w' =
      if Qgtb (rand w (drawn w)) 0.8 && isMusicPlaying (this w)
      then creakCalls (nextNode w) (currentTime w)
             (100 + rand w (drawn w + 1) * 50)
             (60 + rand w (drawn w + 2) * 30) bus
      else [].
Proof.
  world_fields w. intros -> ->. unfold emitted. js_all.
  destruct (Qgtb (rnd used) 0.8); [destruct playing |]; js_or.
  2, 3: eexists; split; [reflexivity |]; js_all;
    by rewrite drop_all.
  eexists; split; [reflexivity |]. js_all.
  replace (N.succ (N.succ used)) with (used + 2)%N by lia.
  replace (N.succ used) with (used + 1)%N by lia.
  repeat split. rewrite <- !app_assoc, drop_app_length.
  by unfold creakCalls.
Qed.

(** X3.  The wind timer plays, exactly when its first random number exceeds
    0.7 and the music is playing, between 4 and 7 s of noise low-passed at
    300 Hz at gain 0.05 on the music bus; the creak timer plays one creak
    exactly when its first random number exceeds 0.8 and the music is
    playing.  Otherwise the tick reaches the device with nothing. *)
Theorem ambient_ticks_gated w ac bus wind creak :
  audioContext (this w) = Some ac ->
  musicGain (this w) = Some bus ->
  unitOracle w ->
  timers w !! wind = Some {| callback := windCb; delay := 8000 |} ->
  timers w !! creak = Some {| callback := creakCb; delay := 12000 |} ->
  let r k := rand w (drawn w + k)%N in
  let gust := (4 + r 1%N * 3)%Q in
  (exists w',
     exec (Tick wind) w = Ok tt w' /\
     emitted w w' =
       (if Qgtb (rand w (drawn w)) 0.7 && isMusicPlaying (this w)
        then noiseCalls (nextNode w) (currentTime w) (sampleRate ac)
               (drawn w + 2) gust 300 0.05 bus
        else [])) /\
  (exists w',
     exec (Tick creak) w = Ok tt w' /\
     emitted w w' =
       (if Qgtb (rand w (drawn w)) 0.8 && isMusicPlaying (this w)
        then creakCalls (nextNode w) (currentTime w)
               (100 + r 1%N * 50) (60 + r 2%N * 30) bus
        else [])) /\
  (4 <= gust)%Q /\ (gust < 7)%Q /\
  (Qgtb (rand w (drawn w)) 0.7 = true <-> (0.7 < rand w (drawn w))%Q) /\
  (Qgtb (rand w (drawn w)) 0.8 = true <-> (0.8 < rand w (drawn w))%Q).
Proof.
  intros Hctx Hmusic Hrand Hwind Hcreak. cbv zeta beta.
  destruct (windTick_run w ac bus Hctx Hmusic) as (w1 & Hrun1 & _ & _ & He1).
  destruct (creakTick_run w ac bus Hctx Hmusic) as (w2 & Hrun2 & _ & _ & He2).
  destruct (Hrand (drawn w + 1)%N) as [H0 H1].
  destruct (scaled_draw 4 3 _ eq_refl H0 H1) as [Hg1 Hg2].
  split; [| split; [| split; [| split; [| split]]]].
  - exists w1. split; [| exact He1].
    unfold exec, tick, bind, get. by rewrite Hwind.
  - exists w2. split; [| exact He2].
    unfold exec, tick, bind, get. by rewrite Hcreak.
  - exact Hg1.
  - exact Hg2.
  - apply Qgtb_lt.
  - apply Qgtb_lt.
Qed.

Lemma ambient_ticks_gated_witness :
  (exists w',
     exec (Tick 3) playingWorld = Ok tt w' /\
     emitted playingWorld w' =
       noiseCalls 13 0 48000 384003 (4 + 0.9 * 3) 300 0.05 (NodeRef 1)) /\
  (exists w',
     exec (Tick 4) playingWorld = Ok tt w' /\
     emitted playingWorld w' =
       creakCalls 13 0 (100 + 0.9 * 50) (60 + 0.9 * 30) (NodeRef 1)) /\
  (4 <= 4 + 0.9 * 3)%Q /\ (4 + 0.9 * 3 < 7)%Q /\
  (Qgtb 0.9 0.7 = true <-> (0.7 < 0.9)%Q) /\
  (Qgtb 0.9 0.8 = true <-> (0.8 < 0.9)%Q).
Proof.
  pose proof (ambient_ticks_gated playingWorld {| sampleRate := 48000 |}
                (NodeRef 1) 3 4) as H.
  vm_compute in H. vm_compute. apply H; try reflexivity.
  intros k; split; [discriminate | reflexivity].
Defined.

(** X4.  While the playing flag is cleared, the melody callback returns
    before it draws any random number, and the wind and creak callbacks
    draw one number and make no device call.  The drone callback has no
    such guard: run in an initialised engine it emits its chord whatever
    the flag, so only [clearInterval] silences the drone. *)
Theorem guards_of_the_callbacks w cell :
  isMusicPlaying (this w) = false ->
  runCallback (playMelodyNoteCb cell) w = Ok tt w /\
  runCallback windCb w = Ok tt (set_drawn (N.succ (drawn w)) w) /\
  runCallback creakCb w = Ok tt (set_drawn (N.succ (drawn w)) w) /\
  (forall ac bus,
     audioContext (this w) = Some ac -> musicGain (this w) = Some bus ->
     exists w',
       runCallback playDroneCb w = Ok tt w' /\
       emitted w w' = droneCalls (nextNode w) (currentTime w) (sampleRate ac)
                        (drawn w) bus /\
       length (started (emitted w w')) = 4%nat).
Proof.
  intros Hplaying. split; [| split; [| split]].
  - by apply playMelodyNote_stopped.
  - world_fields w. subst. simpl. js_all.
    by destruct (Qgtb (rnd used) 0.7).
  - world_fields w. subst. simpl. js_all.
    by destruct (Qgtb (rnd used) 0.8).
  - intros ac bus Hctx Hmusic.
    assert (Hbus : orElse (musicGain (this w)) (masterGain (this w))
                   = Some bus) by (by rewrite Hmusic).
    eexists; split; [exact (playDrone_run w ac bus Hctx Hbus) |].
    by rewrite emitted_set_drawn, emitted_creating.
Qed.

Lemma guards_of_the_callbacks_witness :
  runCallback (playMelodyNoteCb 0) stoppedWorld = Ok tt stoppedWorld /\
  runCallback windCb stoppedWorld
  = Ok tt (set_drawn (N.succ (drawn stoppedWorld)) stoppedWorld) /\
  runCallback creakCb stoppedWorld
  = Ok tt (set_drawn (N.succ (drawn stoppedWorld)) stoppedWorld) /\
  exists w',
    runCallback playDroneCb stoppedWorld = Ok tt w' /\
    emitted stoppedWorld w' = droneCalls 13 0 48000 384001 (NodeRef 1) /\
    length (started (emitted stoppedWorld w')) = 4%nat.
Proof.
  destruct (guards_of_the_callbacks stoppedWorld 0) as (H1 & H2 & H3 & H4);
    [vm_compute; reflexivity |].
  split; [exact H1 | split; [exact H2 | split; [exact H3 |]]].
  specialize (H4 {| sampleRate := 48000 |} (NodeRef 1)).
  vm_compute in H4. vm_compute. apply H4; reflexivity.
Defined.

(** ** The timers mirror the playing flag *)

Lemma synth_cells_length e w :
  synthEvent e ->
  length (melodyCells (after (exec e w))) = length (melodyCells w).
Proof.
  destruct e as [[ac |] | | | | | f d ty v dst | d c v dst | id | dt |];
    try done; intros _; world_fields w; try (js_after; done).
  js_all. destruct (live !! id) as [[[| cell | |] ms] |]; js_after;
    try done.
  all: by rewrite length_insert.
Qed.

Lemma Mirror_synth e w w' :
  synthEvent e -> exec e w = Ok tt w' -> Mirror w -> Mirror w'.
Proof.
  intros He Hrun HM.
  destruct (synth_frame e w He) as (Hthis & Htimers & Hhandle).
  pose proof (synth_cells_length e w He) as Hcells.
  rewrite Hrun in Hthis, Htimers, Hhandle, Hcells.
  cbn [after] in Hthis, Htimers, Hhandle, Hcells.
  unfold Mirror, initialised in *.
  by rewrite Hthis, Htimers, Hhandle, Hcells.
Qed.

Lemma Mirror_start w w' :
  Inv w -> Mirror w -> startBackgroundMusic w = Ok tt w' -> Mirror w'.
Proof.
  intros HI HM Hrun.
  destruct (isMusicPlaying (this w)) eqn:Hplaying.
  { rewrite startBackgroundMusic_playing in Hrun by done.
    by injection Hrun as <-. }
  destruct (audioContext (this w)) as [ac |] eqn:Hctx.
  2: { rewrite startBackgroundMusic_disabled in Hrun by done.
       by injection Hrun as <-. }
  assert (Hbus : orElse (musicGain (this w)) (masterGain (this w))
                 = Some (NodeRef 1))
    by (by rewrite (Inv_music w ac HI Hctx)).
  destruct (startBackgroundMusic_run w ac (NodeRef 1) Hctx Hplaying Hbus)
    as (w1 & Hrun1 & Hthis & Htimers & Hhandle & Hcells & _).
  rewrite Hrun in Hrun1. injection Hrun1 as <-.
  unfold Mirror in HM. rewrite Hplaying in HM.
  destruct HM as (Hnone & Hambient & Hmelody).
  unfold Mirror, initialised. rewrite Hthis. cbn. rewrite Hctx.
  split; [done |].
  eexists _, _, _. rewrite Htimers, Hnone, Hcells, Hambient, Hhandle.
  repeat split; [by rewrite length_app, Nat.add_1_r | lia].
Qed.

Lemma Mirror_wired w ac :
  Mirror w -> audioContext (this w) = None -> Mirror (wired ac w).
Proof.
  unfold Mirror, initialised. intros HM Hctx. rewrite Hctx in HM.
  destruct w as [[]]. cbn in *.
  destruct isMusicPlaying0; [by destruct HM | done].
Qed.

Lemma Mirror_step e w w' :
  Inv w -> Mirror w -> exec e w = Ok tt w' -> Mirror w'.
Proof.
  intros HI HM Hrun.
  destruct e as [[ac |] | | | | | f d ty v dst | d c v dst | id | dt |];
    try (match type of Hrun with
         | exec ?e _ = _ => exact (Mirror_synth e w w' I Hrun HM)
         end).
  - simpl in Hrun. destruct (audioContext (this w)) as [ac' |] eqn:Hctx.
    { rewrite (initAudioContext_present _ w ac' Hctx) in Hrun. congruence. }
    rewrite initAudioContext_run in Hrun by done.
    destruct (Inv_start (wired ac w) (Inv_wired w ac HI Hctx))
      as (w1 & Hrun1 & _).
    unfold try_catch in Hrun. rewrite Hrun1 in Hrun. injection Hrun as <-.
    apply (Mirror_start (wired ac w)); auto using Inv_wired, Mirror_wired.
  - simpl in Hrun. destruct (audioContext (this w)) as [ac' |] eqn:Hctx.
    + rewrite (initAudioContext_present _ w ac' Hctx) in Hrun. congruence.
    + rewrite (initAudioContext_denied w Hctx) in Hrun. congruence.
  - by apply (Mirror_start w).
  - destruct (Inv_stop w HI)
      as (w1 & Hrun1 & _ & Hnone & Hplaying & Hmelody & Hambient & _).
    change (exec CallStop w) with (stopBackgroundMusic w) in Hrun.
    rewrite Hrun in Hrun1. injection Hrun1 as <-.
    unfold Mirror. by rewrite Hplaying.
  - unfold exec, modify in Hrun. injection Hrun as <-.
    unfold Mirror, initialised in *. destruct w as [[]]. cbn in *.
    destruct isMusicPlaying0; [| done].
    destruct HM as (Hinit & h & cell & period & ? & ? & ? & ? & ?).
    split; [done |]. exists h, cell, period. repeat split; try done. lia.
Qed.

Lemma Mirror_run es : forall w w',
  Inv w -> Mirror w -> run es w = Ok tt w' -> Mirror w'.
Proof.
  induction es as [| e es IH]; intros w w' HI HM Hrun.
  - simpl in Hrun. by injection Hrun as <-.
  - simpl in Hrun. unfold bind in Hrun.
    destruct (Inv_step e w HI) as (w1 & Hrun1 & HI1).
    rewrite Hrun1 in Hrun.
    apply (IH w1 w' HI1); [| exact Hrun]. by apply (Mirror_step e w).
Qed.

Lemma reached_Mirror cfg rnd history w :
  run history (configured cfg rnd) = Ok tt w -> Mirror w.
Proof.
  intros Hrun.
  apply (Mirror_run history _ w (Inv_constructor cfg rnd)); [| exact Hrun].
  by unfold Mirror.
Qed.

(** X6.  The live timers mirror the playing flag in every world the engine
    reaches.  While the music plays the engine is initialised and exactly
    four timers are alive, those of one [startBackgroundMusic]: the drone
    at 7500 ms, the melody on the newest cursor, the wind at 8000 ms and
    the creak at 12000 ms, their handles recorded in [ambientIntervals] and
    [musicInterval].  While it does not play no timer is alive and no
    handle is recorded. *)
Theorem timers_mirror_playing cfg rnd history w :
  run history (configured cfg rnd) = Ok tt w ->
  (isMusicPlaying (this w) = true ->
     initialised w = true /\
     exists h cell period,
       timers w = fourTimers h cell period /\
       S cell = length (melodyCells w) /\
       ambientIntervals (this w) = [h; h + 2; h + 3] /\
       musicInterval (this w) = Some (h + 1)) /\
  (isMusicPlaying (this w) = false ->
     timers w = ∅ /\
     ambientIntervals (this w) = [] /\ musicInterval (this w) = None).
Proof.
  intros Hrun. pose proof (reached_Mirror _ _ _ _ Hrun) as HM.
  unfold Mirror in HM.
  destruct (isMusicPlaying (this w)); split; try done.
  intros _. destruct HM as (Hinit & h & cell & period & ? & ? & ? & ? & _).
  split; [done |]. by exists h, cell, period.
Qed.

Lemma timers_mirror_playing_witness :
  (isMusicPlaying (this playingWorld) = true ->
     initialised playingWorld = true /\
     exists h cell period,
       timers playingWorld = fourTimers h cell period /\
       S cell = length (melodyCells playingWorld) /\
       ambientIntervals (this playingWorld) = [h; h + 2; h + 3] /\
       musicInterval (this playingWorld) = Some (h + 1)) /\
  (isMusicPlaying (this playingWorld) = false ->
     timers playingWorld = ∅ /\
     ambientIntervals (this playingWorld) = [] /\
     musicInterval (this playingWorld) = None).
Proof.
  apply (timers_mirror_playing defaultConfig (fun _ => 0.9%Q)
           [Gesture (Some {| sampleRate := 48000 |})] playingWorld).
  vm_compute. reflexivity.
Defined.

(** ** Lifecycle *)

Lemma wired_start w ac :
  audioContext (this w) = None ->
  isMusicPlaying (this w) = false ->
  calls w = [] -> nextNode w = 0%nat -> timers w = ∅ ->
  exists w',
    startBackgroundMusic (wired ac w) = Ok tt w' /\
    initialised w' = true /\ isMusicPlaying (this w') = true /\
    currentTime w' = 0%Q /\
    calls w' = graphCalls (config (this w)) ++
               droneCalls 3 0 (sampleRate ac) (drawn w) (NodeRef 1) /\
    timers w' =
      fourTimers (nextTimer w) (length (melodyCells w))
        (3000 + rand w (drawn w + Z.to_N (Qceiling (sampleRate ac * 8)))
                * 4000).
Proof.
  world_fields w. intros -> -> -> -> ->.
  destruct (startBackgroundMusic_run
              (wired ac
                 {| this := {| audioContext := None; masterGain := master;
                               musicGain := music; sfxGain := sfx;
                               isEnabled := enabled; isMusicPlaying := false;
                               musicInterval := melody;
                               ambientIntervals := ambient; config := cfg |};
                    timers := ∅; nextTimer := handle; melodyCells := cells;
                    calls := []; nextNode := 0; currentTime := now;
                    rand := rnd; drawn := used |})
              ac (NodeRef 1) eq_refl eq_refl eq_refl)
    as (w' & Hrun & Hthis & Htimers & _ & _ & Hcalls & _ & Hnow & _).
  exists w'. split; [exact Hrun |].
  unfold initialised. rewrite Hthis, Hnow, Hcalls, Htimers.
  by repeat split.
Qed.

(** X7.  An initialised engine ignores every further gesture.  A gesture of
    a not yet initialised engine changes nothing when the device is refused
    (so a later gesture can still succeed), and with a device it sets the
    audio clock to 0, builds the gain chain, marks the music as playing,
    emits the first drone chord at once and registers the four timers. *)
Theorem gesture_initialises_once cfg rnd history w :
  run history (configured cfg rnd) = Ok tt w ->
  (initialised w = true ->
     forall device, exec (Gesture device) w = Ok tt w) /\
  (initialised w = false ->
     exec (Gesture None) w = Ok tt w /\
     forall ac,
       exists w',
         exec (Gesture (Some ac)) w = Ok tt w' /\
         initialised w' = true /\ isMusicPlaying (this w') = true /\
         currentTime w' = 0%Q /\
         calls w' = graphCalls cfg ++
                    droneCalls 3 0 (sampleRate ac) (drawn w) (NodeRef 1) /\
         timers w' =
           fourTimers (nextTimer w) (length (melodyCells w))
             (3000 +
              rand w (drawn w + Z.to_N (Qceiling (sampleRate ac * 8)))
              * 4000)).
Proof.
  intros Hrun.
  pose proof (reached_Inv _ _ _ _ Hrun) as HI.
  pose proof (reached_Mirror _ _ _ _ Hrun) as HM.
  pose proof (config_run history _ _ (Inv_constructor cfg rnd) Hrun) as Hcfg.
  change (config (this (configured cfg rnd))) with cfg in Hcfg.
  unfold initialised in *.
  destruct (audioContext (this w)) as [ac' |] eqn:Hctx;
    cbn [negb absent]; split; try discriminate.
  - intros _ device. by apply (initAudioContext_present device w ac').
  - intros _. split; [by apply initAudioContext_denied |].
    intros ac.
    pose proof (inv_graph w HI) as Hg. rewrite Hctx in Hg.
    destruct Hg as [Hcalls Hnode].
    unfold Mirror, initialised in HM. rewrite Hctx in HM.
    destruct (isMusicPlaying (this w)) eqn:Hplaying; [by destruct HM |].
    destruct HM as (Hnone & _).
    destruct (wired_start w ac Hctx Hplaying Hcalls Hnode Hnone)
      as (w' & Hstart & Hfacts).
    exists w'. split.
    + simpl. rewrite initAudioContext_run by done.
      unfold try_catch. by rewrite Hstart.
    + by rewrite <- Hcfg.
Qed.

Lemma gesture_initialises_once_witness :
  (forall device, exec (Gesture device) playingWorld = Ok tt playingWorld) /\
  exec (Gesture None) (configured defaultConfig (fun _ => 0.9%Q))
  = Ok tt (configured defaultConfig (fun _ => 0.9%Q)).
Proof.
  split.
  - destruct (gesture_initialises_once defaultConfig (fun _ => 0.9%Q)
                [Gesture (Some {| sampleRate := 48000 |})] playingWorld)
      as [Honce _]; [vm_compute; reflexivity |].
    apply Honce. vm_compute. reflexivity.
  - destruct (gesture_initialises_once defaultConfig (fun _ => 0.9%Q)
                [] (configured defaultConfig (fun _ => 0.9%Q)))
      as [_ Hfresh]; [reflexivity |].
    by destruct Hfresh.
Defined.

(** ** PlaybackController: composition *)

(** X8.  [stopBackgroundMusic] never throws, draws no random number and
    sends nothing to the device, whatever the world: sounds already started
    run to their end.  Calling it twice leaves what calling it once
    leaves. *)
Theorem stop_is_idempotent_and_silent w :
  (exists w',
     stopBackgroundMusic w = Ok tt w' /\
     isMusicPlaying (this w') = false /\ ambientIntervals (this w') = [] /\
     calls w' = calls w /\ nextNode w' = nextNode w /\
     drawn w' = drawn w /\ melodyCells w' = melodyCells w /\
     nextTimer w' = nextTimer w /\
     audioContext (this w') = audioContext (this w)) /\
  (stopBackgroundMusic ;; stopBackgroundMusic) w = stopBackgroundMusic w.
Proof.
  split.
  - eexists; split; [apply stopBackgroundMusic_run |]. by destruct w as [[]].
  - unfold bind. rewrite stopBackgroundMusic_run, stopBackgroundMusic_run.
    world_fields w. js_unfold. cbn [foldl].
    destruct melody as [id |]; [| done].
    by destruct (truthy (Some id)) eqn:E; [| rewrite E].
Qed.

Lemma stop_frame w w' :
  stopBackgroundMusic w = Ok tt w' ->
  calls w' = calls w /\ nextNode w' = nextNode w /\ drawn w' = drawn w /\
  melodyCells w' = melodyCells w /\ nextTimer w' = nextTimer w /\
  currentTime w' = currentTime w /\ rand w' = rand w.
Proof.
  rewrite stopBackgroundMusic_run. intros H. injection H as <-.
  by destruct w.
Qed.

(** X9.  Stopping and starting again an initialised engine gives a playing
    engine with four new timers, whose handles were never used before, a
    new melodic cursor at index 0 beside the old ones, and a drone chord
    emitted at once: the restart does not wait for the first period. *)
Theorem restart_after_stop cfg rnd history w ac :
  run history (configured cfg rnd) = Ok tt w ->
  audioContext (this w) = Some ac ->
  exists w1 w2,
    stopBackgroundMusic w = Ok tt w1 /\
    startBackgroundMusic w1 = Ok tt w2 /\
    isMusicPlaying (this w2) = true /\
    timers w2 =
      fourTimers (nextTimer w) (length (melodyCells w))
        (3000 + rand w (drawn w + Z.to_N (Qceiling (sampleRate ac * 8)))
                * 4000) /\
    (forall id, is_Some (timers w !! id) -> id < nextTimer w) /\
    melodyCells w2 = melodyCells w ++ [0] /\
    emitted w w2 = droneCalls (nextNode w) (currentTime w) (sampleRate ac)
                     (drawn w) (NodeRef 1).
Proof.
  intros Hrun Hctx.
  pose proof (reached_Inv _ _ _ _ Hrun) as HI.
  destruct (Inv_stop w HI)
    as (w1 & Hstop & HI1 & Hnone & Hplaying & _ & _ & Hctx1).
  destruct (stop_frame w w1 Hstop)
    as (Hcalls & Hnode & Hdrawn & Hcells & Hhandle & Hnow & Hrand).
  rewrite Hctx in Hctx1.
  assert (Hbus : orElse (musicGain (this w1)) (masterGain (this w1))
                 = Some (NodeRef 1))
    by (by rewrite (Inv_music w1 ac HI1 Hctx1)).
  destruct (startBackgroundMusic_run w1 ac (NodeRef 1) Hctx1 Hplaying Hbus)
    as (w2 & Hstart & Hthis & Htimers & _ & Hcells2 & Hcalls2 & _).
  exists w1, w2.
  split; [exact Hstop |]. split; [exact Hstart |].
  split; [by rewrite Hthis |].
  split; [by rewrite Htimers, Hnone, Hhandle, Hcells, Hrand, Hdrawn |].
  split.
  { intros id Hid. apply (inv_live w HI). by apply elem_of_dom. }
  split; [by rewrite Hcells2, Hcells |].
  unfold emitted. rewrite Hcalls2, Hcalls, drop_app_length.
  by rewrite Hnode, Hnow, Hdrawn.
Qed.

Lemma restart_after_stop_witness :
  exists w1 w2,
    stopBackgroundMusic playingWorld = Ok tt w1 /\
    startBackgroundMusic w1 = Ok tt w2 /\
    isMusicPlaying (this w2) = true /\
    timers w2 =
      fourTimers (nextTimer playingWorld) (length (melodyCells playingWorld))
        (3000 +
         rand playingWorld
           (drawn playingWorld + Z.to_N (Qceiling (48000 * 8))) * 4000) /\
    (forall id, is_Some (timers playingWorld !! id) ->
                id < nextTimer playingWorld) /\
    melodyCells w2 = melodyCells playingWorld ++ [0] /\
    emitted playingWorld w2
    = droneCalls (nextNode playingWorld) (currentTime playingWorld) 48000
        (drawn playingWorld) (NodeRef 1).
Proof.
  apply (restart_after_stop defaultConfig (fun _ => 0.9%Q)
           [Gesture (Some {| sampleRate := 48000 |})] playingWorld
           {| sampleRate := 48000 |}); vm_compute; reflexivity.
Defined.

(** ** MixBus and the interaction cues *)

Lemma graph_levels cfg rest :
  Forall (fun c => (3 <= subject c)%nat) rest ->
  let log := graphCalls cfg ++ rest in
  gainOf log 0 = masterVolume cfg /\
  gainOf log 1 = musicVolume cfg /\
  gainOf log 2 = sfxVolume cfg /\
  outputOf log 0 = Some Destination /\
  outputOf log 1 = Some (NodeRef 0) /\
  outputOf log 2 = Some (NodeRef 0).
Proof.
  intros Hrest log.
  assert (Hnew : forall n, (n < 3)%nat ->
            Forall (fun c => subject c <> n) rest).
  { intros n Hn. eapply Forall_impl; [exact Hrest |]. simpl. lia. }
  unfold gainOf, outputOf, log. rewrite !latest_app.
  rewrite (latest_gain_other 0%nat), (latest_gain_other 1%nat),
    (latest_gain_other 2%nat), (latest_out_other 0%nat),
    (latest_out_other 1%nat), (latest_out_other 2%nat)
    by (apply Hnew; lia).
  repeat split; reflexivity.
Qed.

(** X10.  In every initialised world the engine reaches, the three gains of
    the mix bus are the volumes that were configured before the first
    gesture: no event writes a bus or master gain again, and the buses
    still feed the master, which feeds the destination. *)
Theorem mix_levels_fixed cfg rnd history w ac :
  run history (configured cfg rnd) = Ok tt w ->
  audioContext (this w) = Some ac ->
  masterGain (this w) = Some (NodeRef 0) /\
  musicGain (this w) = Some (NodeRef 1) /\
  sfxGain (this w) = Some (NodeRef 2) /\
  gainOf (calls w) 0 = masterVolume cfg /\
  gainOf (calls w) 1 = musicVolume cfg /\
  gainOf (calls w) 2 = sfxVolume cfg /\
  outputOf (calls w) 0 = Some Destination /\
  outputOf (calls w) 1 = Some (NodeRef 0) /\
  outputOf (calls w) 2 = Some (NodeRef 0).
Proof.
  intros Hrun Hctx.
  pose proof (reached_Inv _ _ _ _ Hrun) as HI.
  pose proof (config_run history _ _ (Inv_constructor cfg rnd) Hrun) as Hcfg.
  change (config (this (configured cfg rnd))) with cfg in Hcfg.
  pose proof (inv_graph w HI) as Hg. rewrite Hctx, Hcfg in Hg.
  destruct Hg as (Hm & Hmu & Hsf & Hn & rest & Hrest & Hold).
  split; [done |]. split; [done |]. split; [done |].
  rewrite Hrest. apply graph_levels.
  eapply Forall_impl; [exact Hold |]. simpl. lia.
Qed.

Lemma mix_levels_fixed_witness :
  masterGain (this playingWorld) = Some (NodeRef 0) /\
  musicGain (this playingWorld) = Some (NodeRef 1) /\
  sfxGain (this playingWorld) = Some (NodeRef 2) /\
  gainOf (calls playingWorld) 0 = masterVolume defaultConfig /\
  gainOf (calls playingWorld) 1 = musicVolume defaultConfig /\
  gainOf (calls playingWorld) 2 = sfxVolume defaultConfig /\
  outputOf (calls playingWorld) 0 = Some Destination /\
  outputOf (calls playingWorld) 1 = Some (NodeRef 0) /\
  outputOf (calls playingWorld) 2 = Some (NodeRef 0).
Proof.
  apply (mix_levels_fixed defaultConfig (fun _ => 0.9%Q)
           [Gesture (Some {| sampleRate := 48000 |})] playingWorld
           {| sampleRate := 48000 |}); vm_compute; reflexivity.
Defined.

(** X11.  The hover and click cues do not depend on the music: in every
    initialised world the engine reaches, playing or stopped, [playHover]
    plays 880 Hz and [playClick] 440 Hz, square, for 0.03 s and 0.05 s at
    peak 0.02 and 0.05, on the sfx bus, so that they come out at
    peak * sfx volume * master volume; neither touches the engine fields or
    the timers. *)
Theorem cues_independent_of_music cfg rnd history w ac :
  run history (configured cfg rnd) = Ok tt w ->
  audioContext (this w) = Some ac ->
  (exists w' g,
     exec CallHover w = Ok tt w' /\
     emitted w w' = noteCalls (nextNode w) (currentTime w) (Hz 880) 0.03
                      square 0.02 (NodeRef 2) /\
     this w' = this w /\ timers w' = timers w /\
     pathGain 4 (calls w') (NodeRef (nextNode w)) = Some g /\
     (g == 0.02 * sfxVolume cfg * masterVolume cfg)%Q) /\
  (exists w' g,
     exec CallClick w = Ok tt w' /\
     emitted w w' = noteCalls (nextNode w) (currentTime w) (Hz 440) 0.05
                      square 0.05 (NodeRef 2) /\
     this w' = this w /\ timers w' = timers w /\
     pathGain 4 (calls w') (NodeRef (nextNode w)) = Some g /\
     (g == 0.05 * sfxVolume cfg * masterVolume cfg)%Q).
Proof.
  intros Hrun Hctx.
  pose proof (reached_Inv _ _ _ _ Hrun) as HI.
  pose proof (config_run history _ _ (Inv_constructor cfg rnd) Hrun) as Hcfg.
  change (config (this (configured cfg rnd))) with cfg in Hcfg.
  pose proof (inv_graph w HI) as Hg. rewrite Hctx, Hcfg in Hg.
  destruct Hg as (Hm & Hmu & Hsf & Hn & rest & Hrest & Hold).
  assert (Hbus : orElse (sfxGain (this w)) (masterGain (this w))
                 = Some (NodeRef 2)) by (by rewrite Hsf).
  assert (Hcue : forall freq duration peak,
            exists w' g,
              playNote freq duration square peak (sfxGain (this w)) w
              = Ok tt w' /\
              emitted w w' = noteCalls (nextNode w) (currentTime w) freq
                               duration square peak (NodeRef 2) /\
              this w' = this w /\ timers w' = timers w /\
              pathGain 4 (calls w') (NodeRef (nextNode w)) = Some g /\
              (g == peak * sfxVolume cfg * masterVolume cfg)%Q).
  { intros freq duration peak. eexists; eexists.
    split; [exact (playNote_run _ _ _ _ _ w ac (NodeRef 2) Hctx Hbus) |].
    split; [by rewrite emitted_creating |].
    split; [by destruct w |]. split; [by destruct w |].
    split.
    - cbn [calls creating set_nextNode set_calls]. rewrite Hrest.
      apply (note_path cfg rest (nextNode w)); [done | done | by right].
    - ring. }
  split.
  - destruct (Hcue (Hz 880) 0.03%Q 0.02%Q) as (w' & g & Hplay & Hrest').
    exists w', g. split; [| exact Hrest'].
    unfold exec, playHover, bind, field, get. exact Hplay.
  - destruct (Hcue (Hz 440) 0.05%Q 0.05%Q) as (w' & g & Hplay & Hrest').
    exists w', g. split; [| exact Hrest'].
    unfold exec, playClick, bind, field, get. exact Hplay.
Qed.

Lemma cues_independent_of_music_witness :
  (exists w' g,
     exec CallHover stoppedWorld = Ok tt w' /\
     emitted stoppedWorld w'
     = noteCalls 13 0 (Hz 880) 0.03 square 0.02 (NodeRef 2) /\
     this w' = this stoppedWorld /\ timers w' = timers stoppedWorld /\
     pathGain 4 (calls w') (NodeRef 13) = Some g /\
     (g == 0.02 * 0.3 * 0.4)%Q) /\
  (exists w' g,
     exec CallClick stoppedWorld = Ok tt w' /\
     emitted stoppedWorld w'
     = noteCalls 13 0 (Hz 440) 0.05 square 0.05 (NodeRef 2) /\
     this w' = this stoppedWorld /\ timers w' = timers stoppedWorld /\
     pathGain 4 (calls w') (NodeRef 13) = Some g /\
     (g == 0.05 * 0.3 * 0.4)%Q).
Proof.
  pose proof (cues_independent_of_music defaultConfig (fun _ => 0.9%Q)
                [Gesture (Some {| sampleRate := 48000 |}); CallStop]
                stoppedWorld {| sampleRate := 48000 |}) as H.
  vm_compute in H. vm_compute. apply H; reflexivity.
Defined.

(** ** MelodyGenerator: frequencies *)

Lemma phrygian_degree_in i :
  0 <= i <= 6 -> exists s, scaleAt phrygian i = Some s /\ In s phrygian.
Proof.
  intros Hi.
  assert (i = 0 \/ i = 1 \/ i = 2 \/ i = 3 \/ i = 4 \/ i = 5 \/ i = 6)
    as [-> | [-> | [-> | [-> | [-> | [-> | ->]]]]]] by lia;
    eexists; (split; [reflexivity | simpl; tauto]).
Qed.

Lemma cursor_after_advance (cells : list Z) cell direction step :
  Forall (fun i => 0 <= i <= 6) cells ->
  0 <= default 0
         (<[cell := advanceCursor 7 (default 0 (cells !! cell)) direction
                      step]> cells !! cell) <= 6.
Proof.
  intros Hcells.
  destruct (decide (cell < length cells)%nat) as [Hlt | Hge].
  - rewrite list_lookup_insert_eq by done. simpl.
    by apply advanceCursor_range.
  - rewrite list_insert_ge by lia.
    rewrite (proj2 (lookup_ge_None cells cell)) by lia. simpl. lia.
Qed.

Lemma note_frequency osc now freq duration type volume bus n f :
  In (SetFrequencyValue n f)
    (noteCalls osc now freq duration type volume bus) ->
  f = freq.
Proof.
  unfold noteCalls. simpl.
  intros [H | [H | [H | [H | [H | [H | [H | [H | [H | [H | []]]]]]]]]]];
    try discriminate.
  by injection H.
Qed.

(** X12.  The melody never hands the device an undefined frequency: in
    every world the engine reaches, each frequency a melody tick sets, for
    the main note and for the harmony note, is
    baseFreq * 2^octave * 2^(semitone / 12) with the octave 2 or 3 and
    the semitone taken from the phrygian scale; no index leaves the
    scale. *)
Theorem melody_frequencies_defined cfg rnd history w id t cell :
  run history (configured cfg rnd) = Ok tt w ->
  timers w !! id = Some t ->
  callback t = playMelodyNoteCb cell ->
  unitOracle w ->
  exists w',
    exec (Tick id) w = Ok tt w' /\
    emitted w w' <> [] /\
    forall n f,
      In (SetFrequencyValue n f) (emitted w w') ->
      exists octave semitone,
        f = Tempered (baseFreq * 2 ^ octave) semitone /\
        2 <= octave <= 3 /\ In semitone phrygian.
Proof.
  intros Hrun Htimer Hcb Hrand.
  pose proof (reached_Inv _ _ _ _ Hrun) as HI.
  pose proof (reached_Mirror _ _ _ _ Hrun) as HM.
  assert (Hcells : cursorsInRange w).
  { apply (cursors_run history _ w (Inv_constructor cfg rnd) Hrun).
    constructor. }
  unfold Mirror, initialised in HM.
  destruct (isMusicPlaying (this w)) eqn:Hplaying.
  2: { destruct HM as (Hnone & _). by rewrite Hnone in Htimer. }
  destruct HM as (Hinit & _).
  destruct (audioContext (this w)) as [ac |] eqn:Hctx; [| done].
  assert (Hbus : orElse (musicGain (this w)) (masterGain (this w))
                 = Some (NodeRef 1))
    by (by rewrite (Inv_music w ac HI Hctx)).
  destruct (playMelodyNote_run cell w ac (NodeRef 1) Hctx Hplaying Hbus)
    as (w' & Hplay & _ & _ & _ & _ & Hcalls & _).
  cbv zeta beta in Hcalls.
  set (cursor := default 0 (<[cell := _]> (melodyCells w) !! cell)) in Hcalls.
  assert (Hcursor : 0 <= cursor <= 6) by (by apply cursor_after_advance).
  destruct (Hrand (drawn w + 2)%N) as [H0 H1].
  pose proof (Qfloor_scaled _ 2 eq_refl H0 H1) as Hoct.
  set (octave := octaveOf (rand w (drawn w + 2))) in Hcalls.
  assert (Hoctave : 2 <= octave <= 3).
  { unfold octave, octaveOf. change 2%Q with (inject_Z 2). lia. }
  destruct (phrygian_degree_in cursor Hcursor) as (s & Hs & Hin).
  assert (Hharm : 0 <= Z.rem (cursor + 2) 7 <= 6).
  { rewrite Z.rem_mod_nonneg by lia.
    pose proof (Z.mod_pos_bound (cursor + 2) 7). lia. }
  destruct (phrygian_degree_in _ Hharm) as (s' & Hs' & Hin').
  rewrite Hs, Hs' in Hcalls.
  destruct t as [cb ms]. simpl in Hcb. subst cb.
  exists w'. split; [| split].
  - unfold exec, tick, bind, get. by rewrite Htimer.
  - unfold emitted. rewrite Hcalls, drop_app_length. done.
  - intros n f. unfold emitted. rewrite Hcalls, drop_app_length.
    intros Hf. apply in_app_or in Hf as [Hf | Hf].
    + apply note_frequency in Hf. by exists octave, s.
    + destruct (Qgtb _ 0.6); [| done].
      apply note_frequency in Hf. by exists octave, s'.
Qed.

Lemma melody_frequencies_defined_witness :
  exists w',
    exec (Tick 2) playingWorld = Ok tt w' /\
    emitted playingWorld w' <> [] /\
    forall n f,
      In (SetFrequencyValue n f) (emitted playingWorld w') ->
      exists octave semitone,
        f = Tempered (baseFreq * 2 ^ octave) semitone /\
        2 <= octave <= 3 /\ In semitone phrygian.
Proof.
  apply (melody_frequencies_defined defaultConfig (fun _ => 0.9%Q)
           [Gesture (Some {| sampleRate := 48000 |})] playingWorld 2
           {| callback := playMelodyNoteCb 0; delay := 3000 + 0.9 * 4000 |}
           0%nat);
    [ vm_compute; reflexivity | vm_compute; reflexivity | reflexivity
    | vm_compute; intros k; split; [discriminate | reflexivity] ].
Defined.

(** ** The device log *)

Lemma extends_same w w' :
  calls w' = calls w -> nextNode w' = nextNode w -> extends w w'.
Proof.
  intros Hc Hn. split; [lia |]. exists []. by rewrite Hc, app_nil_r.
Qed.

Lemma extends_trans w1 w2 w3 :
  extends w1 w2 -> extends w2 w3 -> extends w1 w3.
Proof.
  intros (H12 & cs & Hcs & Hf) (H23 & cs' & Hcs' & Hf').
  split; [lia |]. exists (cs ++ cs'). split.
  - by rewrite Hcs', Hcs, app_assoc.
  - apply Forall_app; split.
    + eapply Forall_impl; [exact Hf |]. simpl. lia.
    + eapply Forall_impl; [exact Hf' |]. simpl. lia.
Qed.

Lemma start_extends w w' :
  Inv w -> startBackgroundMusic w = Ok tt w' -> extends w w'.
Proof.
  intros HI Hrun.
  destruct (isMusicPlaying (this w)) eqn:Hplaying.
  { rewrite startBackgroundMusic_playing in Hrun by done.
    injection Hrun as <-. by apply extends_same. }
  destruct (audioContext (this w)) as [ac |] eqn:Hctx.
  2: { rewrite startBackgroundMusic_disabled in Hrun by done.
       injection Hrun as <-. by apply extends_same. }
  assert (Hbus : orElse (musicGain (this w)) (masterGain (this w))
                 = Some (NodeRef 1))
    by (by rewrite (Inv_music w ac HI Hctx)).
  destruct (startBackgroundMusic_run w ac (NodeRef 1) Hctx Hplaying Hbus)
    as (w1 & Hrun1 & _ & _ & _ & _ & Hcalls & Hnode & _).
  rewrite Hrun in Hrun1. injection Hrun1 as <-.
  split; [lia |]. eexists. split; [exact Hcalls |].
  rewrite Hnode. apply droneCalls_fresh.
Qed.

Lemma wired_extends w ac : extends w (wired ac w).
Proof.
  destruct w as [e tm nt mc cs nn ct rn dr]. unfold extends, wired.
  cbn [nextNode calls set_this set_nextNode set_calls set_currentTime].
  split; [lia |]. eexists. split; [reflexivity |].
  repeat (apply List.Forall_cons; [simpl; lia |]). apply List.Forall_nil.
Qed.

Lemma step_extends e w w' :
  Inv w -> exec e w = Ok tt w' -> extends w w'.
Proof.
  intros HI Hrun.
  assert (Hsynth : synthEvent e -> extends w w').
  { intros Hs.
    destruct (synth_extends e w Hs (Inv_gains w HI)) as (w1 & Hrun1 & Hext).
    congruence. }
  destruct e as [[ac |] | | | | | f d ty v dst | d c v dst | id | dt |];
    try (by apply Hsynth).
  - simpl in Hrun. destruct (audioContext (this w)) as [ac' |] eqn:Hctx.
    { rewrite (initAudioContext_present _ w ac' Hctx) in Hrun.
      injection Hrun as <-. by apply extends_same. }
    rewrite initAudioContext_run in Hrun by done.
    destruct (Inv_start (wired ac w) (Inv_wired w ac HI Hctx))
      as (w1 & Hrun1 & _).
    unfold try_catch in Hrun. rewrite Hrun1 in Hrun. injection Hrun as <-.
    eapply extends_trans; [apply wired_extends |].
    by apply start_extends; [apply Inv_wired |].
  - simpl in Hrun. destruct (audioContext (this w)) as [ac' |] eqn:Hctx.
    + rewrite (initAudioContext_present _ w ac' Hctx) in Hrun.
      injection Hrun as <-. by apply extends_same.
    + rewrite (initAudioContext_denied w Hctx) in Hrun.
      injection Hrun as <-. by apply extends_same.
  - by apply start_extends.
  - destruct (stop_frame w w' Hrun) as (Hc & Hn & _). by apply extends_same.
  - unfold exec, modify in Hrun. injection Hrun as <-.
    apply extends_same; by destruct w.
Qed.

(** X13.  The device log only grows, and every call concerns a node that
    the same event created: in no world the engine reaches does an event
    touch a node of an earlier event, whether the event completes or not.
    A sound, once started, is never stopped early, retuned or rerouted. *)
Theorem sounds_are_never_touched_again cfg rnd history w e :
  run history (configured cfg rnd) = Ok tt w ->
  let w' := after (exec e w) in
  calls w' = calls w ++ emitted w w' /\
  forall c, In c (emitted w w') ->
            (nextNode w <= subject c < nextNode w')%nat.
Proof.
  intros Hrun.
  pose proof (reached_Inv _ _ _ _ Hrun) as HI.
  destruct (Inv_step e w HI) as (w1 & Hstep & _).
  destruct (step_extends e w w1 HI Hstep) as (_ & cs & Hcs & Hfresh).
  rewrite Hstep. cbn [after].
  unfold emitted. rewrite Hcs, drop_app_length. split; [done |].
  intros c Hc. rewrite List.Forall_forall in Hfresh. by apply Hfresh.
Qed.

Lemma sounds_are_never_touched_again_witness :
  calls (after (exec (Tick 1) playingWorld))
  = calls playingWorld ++
    emitted playingWorld (after (exec (Tick 1) playingWorld)) /\
  forall c, In c (emitted playingWorld (after (exec (Tick 1) playingWorld))) ->
            (nextNode playingWorld <= subject c
             < nextNode (after (exec (Tick 1) playingWorld)))%nat.
Proof.
  apply (sounds_are_never_touched_again defaultConfig (fun _ => 0.9%Q)
           [Gesture (Some {| sampleRate := 48000 |})] playingWorld (Tick 1)).
  vm_compute. reflexivity.
Defined.

(** * The melody generator in the running engine *)

(** ** The melody timer *)

Lemma period_range r :
  (0 <= r)%Q -> (r < 1)%Q ->
  (3000 <= 3000 + r * 4000)%Q /\ (3000 + r * 4000 < 7000)%Q.
Proof.
  intros H0 H1.
  assert (H2 : (0 <= r * 4000)%Q) by (by apply Qmult_le_0_compat).
  assert (H3 : (r * 4000 < 1 * 4000)%Q) by (by apply Qmult_lt_compat_r).
  split.
  - rewrite <- (Qplus_0_r 3000) at 1. by apply Qplus_le_r.
  - change 7000%Q with (3000 + 1 * 4000)%Q. by apply Qplus_lt_r.
Qed.

Lemma fourTimers_melody h c period id t cell :
  fourTimers h c period !! id = Some t ->
  callback t = playMelodyNoteCb cell ->
  id = h + 1 /\ cell = c /\ delay t = period.
Proof.
  unfold fourTimers. rewrite !lookup_insert_Some, lookup_empty.
  intros [[_ <-] | [_ [[_ <-] | [_ [[<- <-] | [_ [[_ <-] | [_ H]]]]]]]];
    try done.
  simpl. intros [= <-]. done.
Qed.

Lemma melody_timer w id t cell :
  Inv w -> Mirror w ->
  timers w !! id = Some t -> callback t = playMelodyNoteCb cell ->
  isMusicPlaying (this w) = true /\
  (exists ac, audioContext (this w) = Some ac) /\
  musicInterval (this w) = Some id /\
  (cell < length (melodyCells w))%nat.
Proof.
  intros HI HM Htimer Hcb. unfold Mirror, initialised in HM.
  destruct (isMusicPlaying (this w)) eqn:Hplaying.
  2: { destruct HM as (Hnone & _). by rewrite Hnone in Htimer. }
  destruct HM as (Hinit & h & c & period & Ht & Hlen & _ & Hm & _).
  rewrite Ht in Htimer.
  destruct (fourTimers_melody _ _ _ _ _ _ Htimer Hcb) as (-> & -> & _).
  split; [done |]. split; [| split; [done | lia]].
  destruct (audioContext (this w)) as [ac |]; [by exists ac | done].
Qed.

Lemma melody_tick_run w id t cell :
  Inv w -> Mirror w ->
  timers w !! id = Some t -> callback t = playMelodyNoteCb cell ->
  exists i w',
    melodyCells w !! cell = Some i /\
    exec (Tick id) w = Ok tt w' /\
    this w' = this w /\ timers w' = timers w /\ nextTimer w' = nextTimer w /\
    melodyCells w' =
      <[cell := advanceCursor 7 i (directionOf (rand w (drawn w)))
                  (stepOf (rand w (drawn w + 1)))]> (melodyCells w) /\
    rand w' = rand w /\ drawn w' = (drawn w + 5)%N.
Proof.
  intros HI HM Htimer Hcb.
  destruct (melody_timer w id t cell HI HM Htimer Hcb)
    as (Hplaying & [ac Hctx] & _ & Hlen).
  destruct (lookup_lt_is_Some_2 _ _ Hlen) as [i Hi].
  assert (Hbus : orElse (musicGain (this w)) (masterGain (this w))
                 = Some (NodeRef 1))
    by (by rewrite (Inv_music w ac HI Hctx)).
  destruct (playMelodyNote_run cell w ac (NodeRef 1) Hctx Hplaying Hbus)
    as (w' & Hplay & Hthis & Ht & Hh & Hcells & _ & _ & _ & Hrand & Hdrawn).
  exists i, w'. split; [exact Hi |]. split.
  { destruct t as [cb ms]. simpl in Hcb. subst cb.
    unfold exec, tick, bind, get. by rewrite Htimer. }
  repeat split; try done.
  rewrite Hcells. cbv zeta. by rewrite Hi, N.add_0_r.
Qed.

Lemma playing_step e w :
  Inv w -> Mirror w -> isMusicPlaying (this w) = true -> e <> CallStop ->
  exists w', exec e w = Ok tt w' /\ Inv w' /\ Mirror w' /\
             this w' = this w /\ timers w' = timers w.
Proof.
  intros HI HM Hplaying He.
  assert (Hctx : exists ac, audioContext (this w) = Some ac).
  { unfold Mirror, initialised in HM. rewrite Hplaying in HM.
    destruct HM as (Hinit & _).
    destruct (audioContext (this w)) as [ac |]; [by exists ac | done]. }
  destruct Hctx as [ac' Hctx].
  assert (Hsynth : synthEvent e ->
            exists w', exec e w = Ok tt w' /\ Inv w' /\ Mirror w' /\
                       this w' = this w /\ timers w' = timers w).
  { intros Hs. destruct (Inv_step e w HI) as (w' & Hrun & HI').
    exists w'. split; [done | split; [done |]].
    split; [by apply (Mirror_step e w) |].
    destruct (synth_frame e w Hs) as (Hthis & Ht & _).
    rewrite Hrun in Hthis, Ht. by cbn [after] in Hthis, Ht. }
  destruct e as [[ac |] | | | | | f d ty v dst | d c v dst | id | dt |];
    try done; try (by apply Hsynth).
  - exists w. split; [by eapply initAudioContext_present | done].
  - exists w. split; [by eapply initAudioContext_present | done].
  - exists w. split; [by apply startBackgroundMusic_playing | done].
  - destruct (Inv_step ForeignTimer w HI) as (w' & Hrun & HI').
    exists w'. split; [done | split; [done |]].
    split; [by apply (Mirror_step ForeignTimer w) |].
    simpl in Hrun. injection Hrun as <-. by destruct w.
Qed.

Lemma playing_run es : forall w,
  Inv w -> Mirror w -> isMusicPlaying (this w) = true ->
  Forall (fun e => e <> CallStop) es ->
  exists w', run es w = Ok tt w' /\ this w' = this w /\ timers w' = timers w.
Proof.
  induction es as [| e es IH]; intros w HI HM Hplaying Hes.
  - by exists w.
  - inversion Hes as [| ? ? He Hes']; subst.
    destruct (playing_step e w HI HM Hplaying He)
      as (w1 & Hrun & HI1 & HM1 & Hthis & Ht).
    destruct (IH w1 HI1 HM1) as (w2 & Hrun2 & Hthis2 & Ht2);
      [by rewrite Hthis | done |].
    exists w2. simpl. unfold bind. rewrite Hrun.
    split; [done |]. split; congruence.
Qed.

(** ** Where the period comes from *)

Lemma synth_oracle e w :
  synthEvent e ->
  rand (after (exec e w)) = rand w /\
  (drawn w <= drawn (after (exec e w)))%N.
Proof.
  destruct e as [[ac |] | | | | | f d ty v dst | d c v dst | id | dt |];
    try done; intros _; world_fields w;
    try (js_after; (split; [done | lia])).
  js_all. destruct (live !! id) as [[[| cell | |] ms] |]; js_after;
    (split; [done | lia]).
Qed.

Lemma periodDrawn_start w w' :
  Inv w -> periodDrawn w -> startBackgroundMusic w = Ok tt w' ->
  periodDrawn w'.
Proof.
  intros HI HP Hrun.
  destruct (isMusicPlaying (this w)) eqn:Hplaying.
  { rewrite startBackgroundMusic_playing in Hrun by done.
    by injection Hrun as <-. }
  destruct (audioContext (this w)) as [ac |] eqn:Hctx.
  2: { rewrite startBackgroundMusic_disabled in Hrun by done.
    by injection Hrun as <-. }
  assert (Hbus : orElse (musicGain (this w)) (masterGain (this w))
                 = Some (NodeRef 1))
    by (by rewrite (Inv_music w ac HI Hctx)).
  destruct (startBackgroundMusic_run w ac (NodeRef 1) Hctx Hplaying Hbus)
    as (w1 & Hrun1 & _ & Htimers & _ & _ & _ & _ & _ & Hrand & Hdrawn).
  rewrite Hrun in Hrun1. injection Hrun1 as <-.
  cbv zeta in Htimers, Hdrawn.
  intros id t cell. rewrite Htimers, Hrand, Hdrawn, !lookup_insert_Some.
  intros [[_ <-] | [_ [[_ <-] | [_ [[_ <-] | [_ [[_ <-] | [_ H]]]]]]]] Hcb;
    try done.
  - eexists. split; [| reflexivity]. lia.
  - destruct (HP id t cell H Hcb) as (k & Hk & Hd).
    exists k. split; [lia | done].
Qed.

Lemma periodDrawn_step e w w' :
  Inv w -> periodDrawn w -> exec e w = Ok tt w' -> periodDrawn w'.
Proof.
  intros HI HP Hrun.
  assert (Hsynth : synthEvent e -> periodDrawn w').
  { intros Hs.
    destruct (synth_frame e w Hs) as (_ & Ht & _).
    destruct (synth_oracle e w Hs) as (Hrand & Hdrawn).
    rewrite Hrun in Ht, Hrand, Hdrawn. cbn [after] in Ht, Hrand, Hdrawn.
    intros id t cell. rewrite Ht, Hrand. intros Htimer Hcb.
    destruct (HP id t cell Htimer Hcb) as (k & Hk & Hd).
    exists k. split; [lia | done]. }
  destruct e as [[ac |] | | | | | f d ty v dst | d c v dst | id | dt |];
    try (by apply Hsynth).
  - simpl in Hrun. destruct (audioContext (this w)) as [ac' |] eqn:Hctx.
    { rewrite (initAudioContext_present _ w ac' Hctx) in Hrun.
      by injection Hrun as <-. }
    rewrite initAudioContext_run in Hrun by done.
    destruct (Inv_start (wired ac w) (Inv_wired w ac HI Hctx))
      as (w1 & Hrun1 & _).
    unfold try_catch in Hrun. rewrite Hrun1 in Hrun. injection Hrun as <-.
    apply (periodDrawn_start _ _ (Inv_wired w ac HI Hctx)); [| exact Hrun1].
    by destruct w.
  - simpl in Hrun. destruct (audioContext (this w)) as [ac' |] eqn:Hctx.
    + rewrite (initAudioContext_present _ w ac' Hctx) in Hrun.
      by injection Hrun as <-.
    + rewrite (initAudioContext_denied w Hctx) in Hrun.
      by injection Hrun as <-.
  - by apply (periodDrawn_start w).
  - destruct (Inv_stop w HI) as (w1 & Hrun1 & _ & Hnone & _).
    change (exec CallStop w) with (stopBackgroundMusic w) in Hrun.
    rewrite Hrun in Hrun1. injection Hrun1 as <-.
    intros id t cell. by rewrite Hnone.
  - simpl in Hrun. injection Hrun as <-. by destruct w.
Qed.

Lemma periodDrawn_run es : forall w w',
  Inv w -> periodDrawn w -> run es w = Ok tt w' -> periodDrawn w'.
Proof.
  induction es as [| e es IH]; intros w w' HI HP Hrun.
  - simpl in Hrun. by injection Hrun as <-.
  - simpl in Hrun. unfold bind in Hrun.
    destruct (Inv_step e w HI) as (w1 & Hrun1 & HI1).
    rewrite Hrun1 in Hrun.
    apply (IH w1 w' HI1); [| exact Hrun]. by apply (periodDrawn_step e w).
Qed.

Lemma reached_periodDrawn cfg rnd history w :
  run history (configured cfg rnd) = Ok tt w -> periodDrawn w.
Proof.
  intros Hrun.
  apply (periodDrawn_run history _ w (Inv_constructor cfg rnd)); [| exact Hrun].
  intros id t cell H. done.
Qed.

(** ** The period *)

(** C10.  [startMelody] draws one random number and registers the melody
    timer with the period 3000 + 4000 r, between 3000 and 7000 ms.  In any
    world the engine reaches, a timer that is alive and still alive later,
    whatever happened in between, has the callback and the period it had.
    A live melody timer is the one [musicInterval] records, and its period
    is 3000 + 4000 r for a number [r] drawn earlier.  Its firing registers
    and cancels nothing: the timer table, the next handle and the engine
    fields are as before, and the five numbers it draws are those of the
    note (direction, step, octave, duration, harmony).  Until
    [stopBackgroundMusic] is called, whatever else happens, the timer table
    and [musicInterval] do not change: the melody keeps that one period. *)
Theorem melody_period_drawn_once :
  (forall w ac,
     audioContext (this w) = Some ac ->
     (0 <= rand w (drawn w))%Q -> (rand w (drawn w) < 1)%Q ->
     exists w',
       startMelody w = Ok tt w' /\
       let period := (3000 + rand w (drawn w) * 4000)%Q in
       timers w' =
         <[nextTimer w :=
             {| callback := playMelodyNoteCb (length (melodyCells w));
                delay := period |}]> (timers w) /\
       musicInterval (this w') = Some (nextTimer w) /\
       drawn w' = N.succ (drawn w) /\
       (3000 <= period)%Q /\ (period < 7000)%Q) /\
  (forall cfg rnd history w id t later w' t',
     run history (configured cfg rnd) = Ok tt w ->
     timers w !! id = Some t ->
     run later w = Ok tt w' ->
     timers w' !! id = Some t' ->
     t' = t) /\
  (forall cfg rnd history w id t cell,
     run history (configured cfg rnd) = Ok tt w ->
     timers w !! id = Some t ->
     callback t = playMelodyNoteCb cell ->
     musicInterval (this w) = Some id /\
     (exists k, (k < drawn w)%N /\ delay t = (3000 + rand w k * 4000)%Q) /\
     (unitOracle w -> (3000 <= delay t)%Q /\ (delay t < 7000)%Q) /\
     (let w' := after (exec (Tick id) w) in
      timers w' = timers w /\ nextTimer w' = nextTimer w /\
      this w' = this w /\ drawn w' = (drawn w + 5)%N) /\
     (forall later,
        Forall (fun e => e <> CallStop) later ->
        timers (after (run later w)) = timers w /\
        musicInterval (this (after (run later w))) = Some id)).
Proof.
  split; [| split].
  - intros w ac Hctx H0 H1.
    destruct (startMelody_run w ac Hctx) as (w' & Hrun & Ht & Hm & Hd).
    exists w'. split; [exact Hrun |]. cbv zeta.
    split; [exact Ht | split; [exact Hm | split; [exact Hd |]]].
    by apply period_range.
  - intros cfg rnd history w id t later w' t' Hrun Ht Hlater Ht'.
    pose proof (reached_Inv _ _ _ _ Hrun) as HI.
    assert (Hid : id < nextTimer w).
    { apply (inv_live w HI). apply elem_of_dom. by exists t. }
    pose proof (keeps_run later id w w' HI Hid Hlater t' Ht') as H.
    congruence.
  - intros cfg rnd history w id t cell Hrun Htimer Hcb.
    pose proof (reached_Inv _ _ _ _ Hrun) as HI.
    pose proof (reached_Mirror _ _ _ _ Hrun) as HM.
    pose proof (reached_periodDrawn _ _ _ _ Hrun) as HP.
    destruct (melody_timer w id t cell HI HM Htimer Hcb)
      as (Hplaying & _ & Hmelody & _).
    destruct (HP id t cell Htimer Hcb) as (k & Hk & Hdelay).
    split; [exact Hmelody |].
    split; [by exists k |].
    split; [| split].
    + intros Hrand. rewrite Hdelay.
      destruct (Hrand k) as [H0 H1]. by apply period_range.
    + destruct (melody_tick_run w id t cell HI HM Htimer Hcb)
        as (i & w' & _ & Htick & Hthis & Ht & Hh & _ & _ & Hd).
      rewrite Htick. by cbn [after].
    + intros later Hlater.
      destruct (playing_run later w HI HM Hplaying Hlater)
        as (w' & Hrun' & Hthis & Ht).
      rewrite Hrun'. cbn [after]. by rewrite Hthis.
Qed.

Lemma melody_period_drawn_once_witness :
  (exists w',
     startMelody playingWorld = Ok tt w' /\
     timers w' =
       <[5 := {| callback := playMelodyNoteCb 1;
                 delay := 3000 + 0.9 * 4000 |}]> (timers playingWorld) /\
     musicInterval (this w') = Some 5 /\
     drawn w' = 384002%N /\
     (3000 <= 3000 + 0.9 * 4000)%Q /\ (3000 + 0.9 * 4000 < 7000)%Q) /\
  (exists t',
     timers (after (run [Tick 2; Elapse 5; Tick 2; Tick 1] playingWorld)) !! 2
     = Some t' /\
     t' = {| callback := playMelodyNoteCb 0; delay := 3000 + 0.9 * 4000 |}) /\
  (musicInterval (this playingWorld) = Some 2 /\
   (exists k,
      (k < drawn playingWorld)%N /\
      (3000 + 0.9 * 4000 = 3000 + rand playingWorld k * 4000)%Q) /\
   ((3000 <= 3000 + 0.9 * 4000)%Q /\ (3000 + 0.9 * 4000 < 7000)%Q) /\
   (timers (after (exec (Tick 2) playingWorld)) = timers playingWorld /\
    nextTimer (after (exec (Tick 2) playingWorld)) = nextTimer playingWorld /\
    this (after (exec (Tick 2) playingWorld)) = this playingWorld /\
    drawn (after (exec (Tick 2) playingWorld))
    = (drawn playingWorld + 5)%N) /\
   timers (after (run [ Tick 2; Elapse 5; CallStart; Tick 2; CallHover;
                        Gesture (Some {| sampleRate := 44100 |}); Tick 1;
                        ForeignTimer; Tick 3; Tick 2 ] playingWorld))
   = timers playingWorld /\
   musicInterval
     (this (after (run [ Tick 2; Elapse 5; CallStart; Tick 2; CallHover;
                         Gesture (Some {| sampleRate := 44100 |}); Tick 1;
                         ForeignTimer; Tick 3; Tick 2 ] playingWorld)))
   = Some 2).
Proof.
  destruct melody_period_drawn_once as (Hstart & Hkeep & Hone).
  split; [| split].
  - specialize (Hstart playingWorld {| sampleRate := 48000 |}).
    vm_compute in Hstart. vm_compute.
    apply Hstart; [reflexivity | discriminate | reflexivity].
  - eexists. split; [vm_compute; reflexivity |].
    apply (Hkeep defaultConfig (fun _ => 0.9%Q)
             [Gesture (Some {| sampleRate := 48000 |})] playingWorld 2
             {| callback := playMelodyNoteCb 0; delay := 3000 + 0.9 * 4000 |}
             [Tick 2; Elapse 5; Tick 2; Tick 1]
             (after (run [Tick 2; Elapse 5; Tick 2; Tick 1] playingWorld)));
      vm_compute; reflexivity.
  - destruct (Hone defaultConfig (fun _ => 0.9%Q)
                [Gesture (Some {| sampleRate := 48000 |})] playingWorld 2
                {| callback := playMelodyNoteCb 0;
                   delay := 3000 + 0.9 * 4000 |} 0%nat)
      as (Hmelody & Hdrawn & Hrange & Htick & Hrest);
      [vm_compute; reflexivity .. |].
    split; [exact Hmelody |].
    split; [exact Hdrawn |].
    split; [apply Hrange; intros k; vm_compute; split;
            [discriminate | reflexivity] |].
    split; [exact Htick |].
    apply Hrest. repeat (constructor; [discriminate |]). constructor.
Defined.

(** ** The cursor *)

Lemma advanceCursor_clamp len i direction step :
  0 < len ->
  advanceCursor len i direction step =
  if decide (i + direction * step < 0) then 0
  else if decide (len - 1 < i + direction * step) then len - 1
       else i + direction * step.
Proof.
  intros Hlen. unfold advanceCursor.
  destruct (decide (i + direction * step < 0));
    [| destruct (decide (len - 1 < i + direction * step))]; lia.
Qed.

Lemma melody_ticks_run id t cell n : forall w i,
  Inv w -> Mirror w ->
  timers w !! id = Some t -> callback t = playMelodyNoteCb cell ->
  melodyCells w !! cell = Some i ->
  exists w',
    run (replicate n (Tick id)) w = Ok tt w' /\
    melodyCells w' !! cell
    = Some (advanceAll 7 i (drawnMoves (rand w) (drawn w) n)).
Proof.
  induction n as [| n IH]; intros w i HI HM Htimer Hcb Hi.
  - by exists w.
  - destruct (melody_tick_run w id t cell HI HM Htimer Hcb)
      as (i' & w1 & Hi' & Htick & _ & Ht & _ & Hcells & Hrand & Hdrawn).
    assert (i' = i) as -> by congruence.
    assert (HI1 : Inv w1).
    { destruct (Inv_step (Tick id) w HI) as (w' & Hrun & HI'). congruence. }
    assert (HM1 : Mirror w1) by (by apply (Mirror_step (Tick id) w)).
    assert (Hi1 : melodyCells w1 !! cell
                  = Some (advanceCursor 7 i (directionOf (rand w (drawn w)))
                            (stepOf (rand w (drawn w + 1))))).
    { rewrite Hcells. apply list_lookup_insert_eq.
      by apply lookup_lt_Some in Hi. }
    rewrite <- Ht in Htimer.
    destruct (IH w1 _ HI1 HM1 Htimer Hcb Hi1) as (w2 & Hrun2 & Hi2).
    exists w2. split.
    + simpl. unfold bind. change (tick id w) with (exec (Tick id) w).
      by rewrite Htick.
    + by rewrite Hi2, Hrand, Hdrawn.
Qed.

(** C2.  Whatever the sequence of advances, the melodic cursor stays within
    [0, scaleLength - 1]; the directions and steps the generator draws are
    in {+1, -1} and {0, 1, 2}.  The advance clamps at both ends and never
    wraps: a move below 0 gives 0, a move above [scaleLength - 1] gives
    [scaleLength - 1], any other move is taken as it is.  From index 0, [n]
    advances with direction +1 and step 2 lead to
    [min (2 n) (scaleLength - 1)], so the cursor reaches [scaleLength - 1]
    and stays there.  In the running engine, whatever the events and the
    random numbers, every cursor is an index into the scale; a firing of
    the melody timer replaces its cursor by the advance for the direction
    and step it draws, and [n] firings in a row leave the cursor that the
    [n] drawn moves give: with direction +1 and step 2 throughout, that is
    [min (i + 2 n) (scaleLength - 1)]. *)
Theorem melody_cursor_clamped scaleLength :
  0 < scaleLength ->
  (forall i moves,
     0 <= i <= scaleLength - 1 ->
     0 <= advanceAll scaleLength i moves <= scaleLength - 1) /\
  (forall r r', (0 <= r')%Q -> (r' < 1)%Q ->
     (directionOf r = 1 \/ directionOf r = -1) /\ 0 <= stepOf r' <= 2) /\
  (forall n,
     advanceAll scaleLength 0 (replicate n (1, 2))
     = Z.min (2 * Z.of_nat n) (scaleLength - 1)) /\
  (forall n m,
     scaleLength - 1 <= 2 * Z.of_nat n ->
     advanceAll scaleLength 0 (replicate (n + m) (1, 2)) = scaleLength - 1) /\
  (forall cfg rnd history w,
     run history (configured cfg rnd) = Ok tt w ->
     Forall (fun i => 0 <= i <= Z.of_nat (length phrygian) - 1)
       (melodyCells w)) /\
  (forall i direction step,
     advanceCursor scaleLength i direction step =
     if decide (i + direction * step < 0) then 0
     else if decide (scaleLength - 1 < i + direction * step)
          then scaleLength - 1
          else i + direction * step) /\
  (forall cfg rnd history w id t cell,
     run history (configured cfg rnd) = Ok tt w ->
     timers w !! id = Some t ->
     callback t = playMelodyNoteCb cell ->
     is_Some (melodyCells w !! cell) /\
     forall i,
       melodyCells w !! cell = Some i ->
       melodyCells (after (exec (Tick id) w)) =
         <[cell := advanceCursor (Z.of_nat (length phrygian)) i
                     (directionOf (rand w (drawn w)))
                     (stepOf (rand w (drawn w + 1)))]> (melodyCells w) /\
       forall n,
         melodyCells (after (run (replicate n (Tick id)) w)) !! cell =
           Some (advanceAll (Z.of_nat (length phrygian)) i
                   (drawnMoves (rand w) (drawn w) n)) /\
         (drawnMoves (rand w) (drawn w) n = replicate n (1, 2) ->
          melodyCells (after (run (replicate n (Tick id)) w)) !! cell =
            Some (Z.min (i + 2 * Z.of_nat n)
                    (Z.of_nat (length phrygian) - 1)))).
Proof.
  intros Hlen. split; [| split; [| split; [| split; [| split; [| split]]]]].
  - intros i moves Hi. by apply advanceAll_range.
  - intros r r' H0 H1. split; [apply directionOf_cases | by apply stepOf_range].
  - intros n. rewrite advanceAll_up2; lia.
  - intros n m Hn. rewrite advanceAll_up2; lia.
  - intros cfg rnd history w Hrun.
    apply (cursors_run history _ w (Inv_constructor cfg rnd) Hrun).
    constructor.
  - intros i direction step. by apply advanceCursor_clamp.
  - intros cfg rnd history w id t cell Hrun Htimer Hcb.
    pose proof (reached_Inv _ _ _ _ Hrun) as HI.
    pose proof (reached_Mirror _ _ _ _ Hrun) as HM.
    assert (Hcells : cursorsInRange w).
    { apply (cursors_run history _ w (Inv_constructor cfg rnd) Hrun).
      constructor. }
    change (Z.of_nat (length phrygian)) with 7.
    destruct (melody_tick_run w id t cell HI HM Htimer Hcb)
      as (i' & w1 & Hi' & Htick & _ & _ & _ & Hnew & _).
    split; [by exists i' |].
    intros i Hi. assert (i' = i) as -> by congruence.
    split; [by rewrite Htick |].
    intros n.
    destruct (melody_ticks_run id t cell n w i HI HM Htimer Hcb Hi)
      as (w' & Hrun' & Hcell).
    rewrite Hrun'. cbn [after].
    split; [exact Hcell |].
    intros Hmoves. rewrite Hcell, Hmoves.
    rewrite advanceAll_up2; [done |].
    unfold cursorsInRange in Hcells. rewrite Forall_lookup in Hcells.
    exact (Hcells _ _ Hi).
Qed.

Lemma melody_cursor_clamped_witness :
  0 <= advanceAll (Z.of_nat (length minor)) 3
         [(1, 2); (-1, 2); (-1, 2); (-1, 1); (1, 0)]
    <= Z.of_nat (length minor) - 1 /\
  ((directionOf 0.9 = 1 \/ directionOf 0.9 = -1) /\ 0 <= stepOf 0.9 <= 2) /\
  advanceAll (Z.of_nat (length minor)) 0 (replicate 100 (1, 2)) = 6 /\
  advanceAll (Z.of_nat (length minor)) 0 (replicate (3 + 97) (1, 2)) = 6 /\
  Forall (fun i => 0 <= i <= Z.of_nat (length phrygian) - 1)
    (melodyCells playingWorld) /\
  (advanceCursor (Z.of_nat (length minor)) 0 (-1) 2 = 0 /\
   advanceCursor (Z.of_nat (length minor)) 6 1 2 = 6 /\
   advanceCursor (Z.of_nat (length minor)) 3 1 2 = 5) /\
  (is_Some (melodyCells playingWorld !! 0%nat) /\
   melodyCells (after (exec (Tick 2) playingWorld)) = [2] /\
   melodyCells (after (run (replicate 2 (Tick 2)) playingWorld)) !! 0%nat
   = Some 4 /\
   melodyCells (after (run (replicate 100 (Tick 2)) playingWorld)) !! 0%nat
   = Some 6).
Proof.
  destruct (melody_cursor_clamped (Z.of_nat (length minor)) eq_refl)
    as (Hrange & Hdraw & Hup & Hsat & Hcells & Hclamp & Htick).
  split; [apply Hrange; simpl; lia |].
  split; [apply Hdraw; [discriminate | reflexivity] |].
  split; [exact (Hup 100%nat) |].
  split; [apply (Hsat 3%nat 97%nat); simpl; lia |].
  split; [apply (Hcells defaultConfig (fun _ => 0.9%Q)
                   [Gesture (Some {| sampleRate := 48000 |})]);
          vm_compute; reflexivity |].
  split; [split; [exact (Hclamp 0 (-1) 2)
                 | split; [exact (Hclamp 6 1 2) | exact (Hclamp 3 1 2)]] |].
  destruct (Htick defaultConfig (fun _ => 0.9%Q)
              [Gesture (Some {| sampleRate := 48000 |})] playingWorld 2
              {| callback := playMelodyNoteCb 0; delay := 3000 + 0.9 * 4000 |}
              0%nat) as (Hsome & Hadv);
    [vm_compute; reflexivity .. |].
  split; [exact Hsome |].
  destruct (Hadv 0) as (Hone & Hmany); [vm_compute; reflexivity |].
  split; [exact Hone |].
  split.
  - destruct (Hmany 2%nat) as [_ H2]. apply H2. vm_compute. reflexivity.
  - destruct (Hmany 100%nat) as [_ H100]. apply H100. vm_compute. reflexivity.
Defined.
